(** * Enterprise license check: a shallow embedding of
      apps/web/modules/ee/license-check/lib/license.ts

    The development follows the source file top to bottom: configuration,
    result types, the zod schemas and the validator, the fetcher with its
    bounded retry, the single-flight slot of [fetchLicense], and the two
    exported accessors [getEnterpriseLicense] and [getLicenseFeatures].

    JavaScript numbers are IEEE binary64 values ([PrimFloat.float]);
    millisecond durations and HTTP status codes, which the code only ever
    uses as small exact integers, are [Z]. *)

From Stdlib Require Import PrimFloat.
From Stdlib Require Import ZArith List String Bool Arith Lia.
From Equations Require Import Equations.
From Equations.Prop Require Import Logic.
Import ListNotations.

Local Open Scope string_scope.
Local Open Scope Z_scope.

Set Warnings "-register-all".

(** ** Results of fallible computations *)

Inductive result (E A : Type) : Type :=
| Ok (a : A)
| Err (e : E).
Arguments Ok {E A} a.
Arguments Err {E A} e.

Definition result_map {E A B} (f : A -> B) (r : result E A) : result E B :=
  match r with
  | Ok a => Ok (f a)
  | Err e => Err e
  end.

(** ** Configuration (CONFIG) *)

Module CONFIG.
Module CACHE.
Definition FETCH_LICENSE_TTL_MS : Z := 24 * 60 * 60 * 1000.
Definition PREVIOUS_RESULT_TTL_MS : Z := 4 * 24 * 60 * 60 * 1000.
Definition GRACE_PERIOD_MS : Z := 3 * 24 * 60 * 60 * 1000.
Definition MAX_RETRIES : nat := 3.
Definition RETRY_DELAY_MS : Z := 1000.
End CACHE.
Module API.
Definition ENDPOINT (environment : option string) : string :=
  match environment with
  | Some "staging" => "https://staging.ee.formbricks.com/api/licenses/check"
  | _ => "https://ee.formbricks.com/api/licenses/check"
  end.
Definition TIMEOUT_MS : Z := 5000.
End API.
End CONFIG.

(** ** Types *)

Inductive FallbackLevel : Type := live | cached | grace | default.

Inductive TEnterpriseLicenseStatusReturn : Type :=
| status_active | status_expired | status_unreachable | status_no_license.

(** [projects] is [number | null] in the source; [None] is [null]. *)
Record TEnterpriseLicenseFeatures : Type := mkFeatures {
  isMultiOrgEnabled : bool;
  projects : option float;
  twoFactorAuth : bool;
  sso : bool;
  whitelabel : bool;
  removeBranding : bool;
  contacts : bool;
  ai : bool;
  saml : bool;
  spamProtection : bool;
  auditLogs : bool;
  multiLanguageSurveys : bool;
  accessControl : bool;
  quotas : bool
}.

(** The two values of [z.enum(["active", "expired"])]. *)
Inductive TLicenseStatus : Type := active_ | expired_.

Record TEnterpriseLicenseDetails : Type := mkDetails {
  details_status : TLicenseStatus;
  details_features : TEnterpriseLicenseFeatures
}.

(** [lastChecked] is a [Date]; it is stored as its epoch milliseconds. *)
Record TEnterpriseLicenseResult : Type := mkResult {
  active : bool;
  features : option TEnterpriseLicenseFeatures;
  lastChecked : Z;
  isPendingDowngrade : bool;
  fallbackLevel : FallbackLevel;
  status : TEnterpriseLicenseStatusReturn
}.

(** ** Untyped JavaScript values ([unknown])

    An object is the list of its own properties in insertion order; reading
    a property that is not there gives [undefined]. *)

Inductive jsvalue : Type :=
| JUndefined
| JNull
| JBool (b : bool)
| JNumber (x : float)
| JString (s : string)
| JArray (xs : list jsvalue)
| JObject (props : list (string * jsvalue)).

Fixpoint get_prop (props : list (string * jsvalue)) (key : string) : jsvalue :=
  match props with
  | [] => JUndefined
  | (k, v) :: rest => if String.eqb k key then v else get_prop rest key
  end.

(** ** Validation schemas

    zod reports every failing field; an issue is the path of the field and
    the kind of failure. *)

Inductive ZodIssueCode : Type := invalid_type | invalid_enum_value.

Record ZodIssue : Type := mkIssue {
  issue_code : ZodIssueCode;
  issue_path : list string
}.

Definition zres (A : Type) : Type := result (list ZodIssue) A.

(** Applying a parsed constructor to the next parsed field; the issues of
    both sides are kept. *)
Definition zap {A B} (f : zres (A -> B)) (x : zres A) : zres B :=
  match f, x with
  | Ok g, Ok a => Ok (g a)
  | Ok _, Err e => Err e
  | Err e, Ok _ => Err e
  | Err e1, Err e2 => Err (e1 ++ e2)%list
  end.

Notation "f <*> x" := (zap f x) (at level 51, left associativity).

Definition fail_type {A} (path : list string) : zres A :=
  Err [mkIssue invalid_type path].

Section Schemas.

(** The check [z.number()] makes on a value of type number belongs to the
    zod library; the schemas are stated for any such check. *)
Variable number_ok : float -> bool.

Definition z_boolean (path : list string) (v : jsvalue) : zres bool :=
  match v with
  | JBool b => Ok b
  | _ => fail_type path
  end.

Definition z_number (path : list string) (v : jsvalue) : zres float :=
  match v with
  | JNumber x => if number_ok x then Ok x else fail_type path
  | _ => fail_type path
  end.

Definition z_nullable {A} (inner : list string -> jsvalue -> zres A)
           (path : list string) (v : jsvalue) : zres (option A) :=
  match v with
  | JNull => Ok None
  | _ => result_map Some (inner path v)
  end.

(** [z.enum(["active", "expired"])] *)
Definition z_enum_status (path : list string) (v : jsvalue) : zres TLicenseStatus :=
  match v with
  | JString s =>
      if String.eqb s "active" then Ok active_
      else if String.eqb s "expired" then Ok expired_
      else Err [mkIssue invalid_enum_value path]
  | _ => fail_type path
  end.

(** One key of a [z.object] shape. *)
Definition field {A} (props : list (string * jsvalue)) (path : list string)
           (key : string) (parser : list string -> jsvalue -> zres A) : zres A :=
  parser (path ++ [key])%list (get_prop props key).

Definition LicenseFeaturesSchema (path : list string) (v : jsvalue)
  : zres TEnterpriseLicenseFeatures :=
  match v with
  | JObject props =>
      Ok mkFeatures
        <*> field props path "isMultiOrgEnabled" z_boolean
        <*> field props path "projects" (z_nullable z_number)
        <*> field props path "twoFactorAuth" z_boolean
        <*> field props path "sso" z_boolean
        <*> field props path "whitelabel" z_boolean
        <*> field props path "removeBranding" z_boolean
        <*> field props path "contacts" z_boolean
        <*> field props path "ai" z_boolean
        <*> field props path "saml" z_boolean
        <*> field props path "spamProtection" z_boolean
        <*> field props path "auditLogs" z_boolean
        <*> field props path "multiLanguageSurveys" z_boolean
        <*> field props path "accessControl" z_boolean
        <*> field props path "quotas" z_boolean
  | _ => fail_type path
  end.

Definition LicenseDetailsSchema (path : list string) (v : jsvalue)
  : zres TEnterpriseLicenseDetails :=
  match v with
  | JObject props =>
      Ok mkDetails
        <*> field props path "status" z_enum_status
        <*> field props path "features" LicenseFeaturesSchema
  | _ => fail_type path
  end.

(** [validateLicenseDetails]: [LicenseDetailsSchema.parse(data)], which
    throws a ZodError carrying the issues when the data does not fit. *)
Definition validateLicenseDetails (data : jsvalue) : zres TEnterpriseLicenseDetails :=
  LicenseDetailsSchema [] data.

End Schemas.

(** The outcome as the untyped object it is in memory, property by
    property. This is not yet a serialization: [JSON_parse_stringify]
    below is what writing a value as JSON text and reading it back makes
    of it. *)
Definition serializeStatus (s : TLicenseStatus) : jsvalue :=
  match s with
  | active_ => JString "active"
  | expired_ => JString "expired"
  end.

Definition serializeProjects (p : option float) : jsvalue :=
  match p with
  | None => JNull
  | Some x => JNumber x
  end.

Definition serializeFeatures (f : TEnterpriseLicenseFeatures) : jsvalue :=
  JObject
    [ ("isMultiOrgEnabled", JBool (isMultiOrgEnabled f));
      ("projects", serializeProjects (projects f));
      ("twoFactorAuth", JBool (twoFactorAuth f));
      ("sso", JBool (sso f));
      ("whitelabel", JBool (whitelabel f));
      ("removeBranding", JBool (removeBranding f));
      ("contacts", JBool (contacts f));
      ("ai", JBool (ai f));
      ("saml", JBool (saml f));
      ("spamProtection", JBool (spamProtection f));
      ("auditLogs", JBool (auditLogs f));
      ("multiLanguageSurveys", JBool (multiLanguageSurveys f));
      ("accessControl", JBool (accessControl f));
      ("quotas", JBool (quotas f)) ].

Definition serializeDetails (d : TEnterpriseLicenseDetails) : jsvalue :=
  JObject
    [ ("status", serializeStatus (details_status d));
      ("features", serializeFeatures (details_features d)) ].

(** ** JSON text

    [JSON.parse(JSON.stringify(v))] on values. [JSON.stringify] writes NaN
    and the infinities as [null] and negative zero as [0]; every other
    number is written so that it reads back as itself. A property whose
    value is [undefined] is left out, an [undefined] array element is
    written as [null], and [undefined] alone gives no text at all
    ([None]). *)
Definition JSON_number (x : float) : jsvalue :=
  if is_nan x || is_infinity x then JNull
  else if is_zero x && get_sign x then JNumber zero
  else JNumber x.

Fixpoint JSON_parse_stringify (v : jsvalue) : option jsvalue :=
  match v with
  | JUndefined => None
  | JNull => Some JNull
  | JBool b => Some (JBool b)
  | JNumber x => Some (JSON_number x)
  | JString s => Some (JString s)
  | JArray xs =>
      Some (JArray (map (fun x => match JSON_parse_stringify x with
                                  | Some y => y
                                  | None => JNull
                                  end) xs))
  | JObject props =>
      Some (JObject
              ((fix members (ps : list (string * jsvalue)) : list (string * jsvalue) :=
                  match ps with
                  | [] => []
                  | (k, x) :: rest =>
                      match JSON_parse_stringify x with
                      | Some y => (k, y) :: members rest
                      | None => members rest
                      end
                  end) props))
  end.

(** A number that JSON text keeps: finite and not negative zero. *)
Definition JSON_keeps (x : float) : bool :=
  negb (is_nan x || is_infinity x) && negb (is_zero x && get_sign x).

(** The serialization of an outcome: its JSON text, read back. *)
Definition serializeDetailsJSON (d : TEnterpriseLicenseDetails) : option jsvalue :=
  JSON_parse_stringify (serializeDetails d).

(** ** The world outside the module

    [env] and [process.env], and what each collaborator answers. *)

Record Env : Type := mkEnv {
  ENTERPRISE_LICENSE_KEY : option string;
  NEXT_PHASE : option string;
  E2E_TESTING : bool;
  HTTPS_PROXY : option string;
  HTTP_PROXY : option string;
  ENVIRONMENT : option string;
  window_defined : bool
}.

(** JavaScript truthiness of a [string | undefined] and of a
    [string | null]: the empty string is falsy. *)
Definition truthy (s : option string) : bool :=
  match s with
  | Some v => negb (String.eqb v "")
  | None => false
  end.

(** [a ?? b] *)
Definition nullish_or {A} (a b : option A) : option A :=
  match a with
  | Some _ => a
  | None => b
  end.

Definition is_build_phase (e : Env) : bool :=
  match NEXT_PHASE e with
  | Some p => String.eqb p "phase-production-build"
  | None => false
  end.

(** What the module can raise or see raised. A collaborator (database,
    instance lookup, proxy agent, node-fetch, body parsing) raises an error
    of its own, named by a string; reading a property of [null] raises a
    TypeError and zod's [parse] a ZodError; [LicenseApiError] is a class of
    this module that is not exported, so only this module can build one. *)
Inductive js_error : Type :=
| ExternalError (name : string)
| TypeError
| ZodError (issues : list ZodIssue)
| LicenseApiError (status : Z).

(** An HTTP response of node-fetch: the status and what [res.json()]
    resolves to (or the name of the error it rejects with). *)
Record Response : Type := mkResponse {
  res_status : Z;
  res_json : result string jsvalue
}.

Definition res_ok (r : Response) : bool :=
  (200 <=? res_status r) && (res_status r <? 300).

(** What the collaborators answer during the attempt with a given
    [retryCount]. [http] is the outcome of [fetch]: a response, or the
    rejection of a network failure or of the abort raised by the timeout. *)
Record Attempt : Type := mkAttempt {
  getInstanceId : result string (option string);
  response_count : result string Z;
  prerequisite_duration : Z;
  http : result string Response
}.

(** Modelled from the spec: a stored value with the instant it was stored
    at ([CacheEntry]); the two slots are the ones [getCacheKeys] names. *)
Record CacheEntry : Type := mkCacheEntry {
  entry_value : TEnterpriseLicenseDetails;
  storedAt : Z
}.

Record CacheStore : Type := mkCacheStore {
  FETCH_LICENSE_CACHE : option CacheEntry;
  PREVIOUS_RESULT_CACHE : option CacheEntry
}.

Record World : Type := mkWorld {
  env : Env;
  zod_number_ok : float -> bool;
  current_year : Z;
  new_HttpsProxyAgent : string -> result string string;
  attempts : nat -> Attempt;
  cache_store : CacheStore;
  hashString : string -> string;
  createCacheKey_license_status : string -> string;
  createCacheKey_license_previous_result : string -> string
}.

(** ** Effects

    A computation leaves the list of the effects it performed, in order, and
    either returns or throws. *)

Record Payload : Type := mkPayload {
  licenseKey : string;
  usage_responseCount : Z;
  payload_instanceId : option string
}.

Inductive Event : Type :=
| EvGetInstanceId
| EvResponseCount (gte_year lt_year : Z)
| EvLogWarn (msg : string)
| EvLogDebug (msg : string)
| EvLogError (msg : string)
| EvTrackApiError (status : Z)
| EvSetTimeout (ms : Z)
| EvClearTimeout
| EvFetch (endpoint : string) (payload : Payload) (agent : option string)
| EvSleep (ms : Z).

Definition M (A : Type) : Type := (list Event * result js_error A)%type.

Definition ret {A} (a : A) : M A := ([], Ok a).

Definition throw {A} (e : js_error) : M A := ([], Err e).

Definition emit (ev : Event) : M unit := ([ev], Ok tt).

Definition bind {A B} (c : M A) (k : A -> M B) : M B :=
  match c with
  | (t, Ok a) => let (t', r) := k a in ((t ++ t')%list, r)
  | (t, Err e) => (t, Err e)
  end.

Notation "x <- c ;; k" := (bind c (fun x => k))
  (at level 61, c at next level, right associativity).
Notation "c ;;; k" := (bind c (fun _ => k))
  (at level 61, right associativity).

(** [try { body } catch (error) { handler }] *)
Definition try_catch {A} (body : M A) (handler : js_error -> M A) : M A :=
  match body with
  | (t, Ok a) => (t, Ok a)
  | (t, Err e) => let (t', r) := handler e in ((t ++ t')%list, r)
  end.

(** Awaiting a collaborator: its rejection is thrown at the await. *)
Definition await {A} (r : result string A) : M A :=
  match r with
  | Ok a => ret a
  | Err name => throw (ExternalError name)
  end.

Definition trace {A} (c : M A) : list Event := fst c.
Definition outcome {A} (c : M A) : result js_error A := snd c.

(** ** Helper functions *)

Definition sleep (ms : Z) : M unit := emit (EvSleep ms).

(** [trackApiError]: one error-level log line with the status. *)
Definition trackApiError (error : js_error) : M unit :=
  match error with
  | LicenseApiError status => emit (EvTrackApiError status)
  | _ => ret tt
  end.

Definition getCacheIdentifier (w : World) : string :=
  if window_defined (env w) then "browser"
  else if negb (truthy (ENTERPRISE_LICENSE_KEY (env w))) then "no-license"
  else match ENTERPRISE_LICENSE_KEY (env w) with
       | Some k => hashString w k
       | None => "no-license"
       end.

Record CacheKeys : Type := mkCacheKeys {
  FETCH_LICENSE_CACHE_KEY : string;
  PREVIOUS_RESULT_CACHE_KEY : string
}.

Definition getCacheKeys (w : World) : CacheKeys :=
  let identifier := getCacheIdentifier w in
  mkCacheKeys (createCacheKey_license_status w identifier)
              (createCacheKey_license_previous_result w identifier).

(** ** API functions *)

Definition retryable_statuses : list Z := [429; 502; 503; 504].

Definition includes (l : list Z) (x : Z) : bool := existsb (Z.eqb x) l.

(** How one pass through the guarded block ends: with a value to return, or
    with [return fetchLicenseFromServerInternal(retryCount + 1)], whose
    promise is handed back without being awaited inside the block. *)
Inductive Completion : Type :=
| Return (v : option TEnterpriseLicenseDetails)
| Delegate.

(** [responseJson.data]: reading a property of [null] or [undefined]
    throws; a value that is not an object has no such property. *)
Definition get_data (responseJson : jsvalue) : M jsvalue :=
  match responseJson with
  | JNull | JUndefined => throw TypeError
  | JObject props => ret (get_prop props "data")
  | _ => ret JUndefined
  end.

(** [Promise.all([E2E_TESTING ? null : getInstanceId(), prisma.response.count(...)])]:
    both are started, then both are awaited. *)
Definition gather_prerequisites (w : World) (a : Attempt) : M (option string * Z) :=
  (if E2E_TESTING (env w) then ret tt else emit EvGetInstanceId) ;;;
  emit (EvResponseCount (current_year w) (current_year w + 1)) ;;;
  instanceId <- (if E2E_TESTING (env w) then ret None else await (getInstanceId a)) ;;
  responseCount <- await (response_count a) ;;
  ret (instanceId, responseCount).

(** What the [try] block does with the response, once the timeout is
    cleared: from [if (res.ok)] to its end. *)
Definition handle_response (w : World) (retryCount : nat) (res : Response)
  : M Completion :=
  if res_ok res then
    responseJson <- await (res_json res) ;;
    data <- get_data responseJson ;;
    licenseDetails <- match validateLicenseDetails (zod_number_ok w) data with
                      | Ok d => ret d
                      | Err issues => throw (ZodError issues)
                      end ;;
    emit (EvLogDebug "License check API response received") ;;;
    ret (Return (Some licenseDetails))
  else
    let error := LicenseApiError (res_status res) in
    trackApiError error ;;;
    if (retryCount <? CONFIG.CACHE.MAX_RETRIES)%nat
       && includes retryable_statuses (res_status res)
    then
      sleep (CONFIG.CACHE.RETRY_DELAY_MS * 2 ^ Z.of_nat retryCount) ;;;
      ret Delegate
    else ret (Return None).

(** [proxyUrl ? new HttpsProxyAgent(proxyUrl) : undefined] *)
Definition make_agent (w : World) (proxyUrl : option string) : M (option string) :=
  if truthy proxyUrl
  then match proxyUrl with
       | Some url => made <- await (new_HttpsProxyAgent w url) ;; ret (Some made)
       | None => ret None
       end
  else ret None.

(** The body of the [try] block of [fetchLicenseFromServerInternal]. *)
Definition guarded_block (w : World) (retryCount : nat) : M Completion :=
  let a := attempts w retryCount in
  prerequisites <- gather_prerequisites w a ;;
  let instanceId := fst prerequisites in
  let responseCount := snd prerequisites in
  (if 1000 <? prerequisite_duration a
   then emit (EvLogWarn "Slow license check prerequisite data fetching (DB count)")
   else ret tt) ;;;
  if negb (E2E_TESTING (env w)) && negb (truthy instanceId) then ret (Return None)
  else
    let proxyUrl := nullish_or (HTTPS_PROXY (env w)) (HTTP_PROXY (env w)) in
    agent <- make_agent w proxyUrl ;;
    emit (EvSetTimeout CONFIG.API.TIMEOUT_MS) ;;;
    let payload :=
      mkPayload (match ENTERPRISE_LICENSE_KEY (env w) with Some k => k | None => "" end)
                responseCount
                (if truthy instanceId then instanceId else None) in
    emit (EvFetch (CONFIG.API.ENDPOINT (ENVIRONMENT (env w))) payload agent) ;;;
    res <- await (http a) ;;
    emit EvClearTimeout ;;;
    handle_response w retryCount res.

(** The [catch] clause. *)
Definition catch_clause (error : js_error) : M Completion :=
  match error with
  | LicenseApiError _ => throw error
  | _ =>
      emit (EvLogError "Error while fetching license from server") ;;;
      ret (Return None)
  end.

Definition try_block (w : World) (retryCount : nat) : M Completion :=
  try_catch (guarded_block w retryCount) catch_clause.

(** The block asks for another attempt only below the retry bound, which
    is what makes the recursion of [fetchLicenseFromServerInternal] end. *)
Lemma bind_outcome_Ok {A B} (c : M A) (k : A -> M B) t b :
  bind c k = (t, Ok b) ->
  exists t1 a t2, c = (t1, Ok a) /\ k a = (t2, Ok b) /\ t = (t1 ++ t2)%list.
Proof.
  unfold bind. destruct c as [t1 [a | e]].
  - destruct (k a) as [t2 r] eqn:Hk. intros H. inversion H; subst.
    exists t1, a, t2. auto.
  - intros H. inversion H.
Qed.

Lemma try_catch_outcome_Delegate (body : M Completion) t :
  try_catch body catch_clause = (t, Ok Delegate) -> body = (t, Ok Delegate).
Proof.
  unfold try_catch. destruct body as [t1 [a | e]].
  - intros H. inversion H. reflexivity.
  - destruct e; cbn; intros H; inversion H.
Qed.

Lemma guarded_block_Delegate_bound w retryCount t :
  guarded_block w retryCount = (t, Ok Delegate) ->
  (retryCount < CONFIG.CACHE.MAX_RETRIES)%nat.
Proof.
  unfold guarded_block. intros H.
  repeat match type of H with
         | bind _ _ = (_, Ok _) =>
             apply bind_outcome_Ok in H;
             destruct H as (? & ? & ? & _ & H & _)
         | (if negb _ && negb _ then _ else _) = _ =>
             destruct (negb _ && negb _); [discriminate H |]
         | handle_response _ _ ?r = _ =>
             unfold handle_response in H; destruct (res_ok r)
         | ret (Return _) = _ => discriminate H
         end.
  destruct (retryCount <? CONFIG.CACHE.MAX_RETRIES)%nat eqn:Hlt.
  - apply Nat.ltb_lt. exact Hlt.
  - cbn in H. discriminate H.
Qed.

Lemma try_block_Delegate_bound w retryCount t :
  try_block w retryCount = (t, Ok Delegate) ->
  (retryCount < CONFIG.CACHE.MAX_RETRIES)%nat.
Proof.
  intros H. apply try_catch_outcome_Delegate in H.
  eapply guarded_block_Delegate_bound; eauto.
Qed.

Equations? fetchLicenseFromServerInternal (w : World) (retryCount : nat)
  : M (option TEnterpriseLicenseDetails)
  by wf (CONFIG.CACHE.MAX_RETRIES - retryCount)%nat lt :=
fetchLicenseFromServerInternal w retryCount
  with negb (truthy (ENTERPRISE_LICENSE_KEY (env w))) := {
  | true := ret None
  | false with is_build_phase (env w) := {
    | true := ret None
    | false with inspect (try_block w retryCount) := {
      | exist _ (t, Ok (Return v)) _ := (t, Ok v)
      | exist _ (t, Ok Delegate) e :=
          let next := fetchLicenseFromServerInternal w (retryCount + 1)%nat in
          ((t ++ trace next)%list, outcome next)
      | exist _ (t, Err error) _ := (t, Err error) } } }.
Proof.
  apply try_block_Delegate_bound in e.
  unfold CONFIG.CACHE.MAX_RETRIES in e.
  destruct retryCount as [| [| [| n]]]; cbn; lia.
Qed.

(** ** [fetchLicense] and the module variable [fetchLicensePromise]

    JavaScript runs one job at a time, and [fetchLicense] contains no
    [await]: a call runs from its first line to its [return] without
    interleaving. What interleaves with calls is the settling of the promise
    a call created and, as a later job, its [finally] callback. The module
    state below holds the variable, every promise created so far (a promise
    is named by its index) and the arguments of every [cache.withCache]
    invocation, which is the producer the promise waits for. *)

Definition Settlement : Type := result js_error (option TEnterpriseLicenseDetails).

Record PromiseCell : Type := mkCell {
  settlement : option Settlement;
  finally_ran : bool
}.

Record ModuleState : Type := mkState {
  fetchLicensePromise : option nat;
  promise_table : list PromiseCell;
  withCache_calls : list (string * Z)
}.

Definition initial_state : ModuleState := mkState None [] [].

(** What a caller of [fetchLicense] holds: a promise already resolved with
    [null], or a promise that follows the shared one. *)
Inductive Returned : Type :=
| ResolvedNull
| SharedPromise (p : nat).

Definition fetchLicense (w : World) (st : ModuleState) : ModuleState * Returned :=
  if negb (truthy (ENTERPRISE_LICENSE_KEY (env w))) then (st, ResolvedNull)
  else if is_build_phase (env w) then (st, ResolvedNull)
  else
    match fetchLicensePromise st with
    | Some p => (st, SharedPromise p)
    | None =>
        let p := List.length (promise_table st) in
        (mkState (Some p)
                 (promise_table st ++ [mkCell None false])%list
                 (withCache_calls st ++
                    [(FETCH_LICENSE_CACHE_KEY (getCacheKeys w),
                      CONFIG.CACHE.FETCH_LICENSE_TTL_MS)])%list,
         SharedPromise p)
    end.

Fixpoint set_cell (table : list PromiseCell) (p : nat) (c : PromiseCell)
  : list PromiseCell :=
  match table, p with
  | [], _ => []
  | _ :: rest, O => c :: rest
  | x :: rest, S q => x :: set_cell rest q c
  end.

(** The promise [p] settles (the producer finished, with a value or an
    error). A promise settles once. *)
Definition settle (p : nat) (r : Settlement) (st : ModuleState) : option ModuleState :=
  match nth_error (promise_table st) p with
  | Some (mkCell None ran) =>
      Some (mkState (fetchLicensePromise st)
                    (set_cell (promise_table st) p (mkCell (Some r) ran))
                    (withCache_calls st))
  | _ => None
  end.

(** The callback given to [.finally] on [p] runs, once, after [p] settled:
    [fetchLicensePromise = null]. *)
Definition run_finally (p : nat) (st : ModuleState) : option ModuleState :=
  match nth_error (promise_table st) p with
  | Some (mkCell (Some r) false) =>
      Some (mkState None
                    (set_cell (promise_table st) p (mkCell (Some r) true))
                    (withCache_calls st))
  | _ => None
  end.

Inductive Job : Type :=
| CallFetchLicense
| Settle (p : nat) (r : Settlement)
| RunFinally (p : nat).

(** One job; [None] when the job cannot happen in this state. A call also
    gives what the caller received. *)
Definition step (w : World) (st : ModuleState) (j : Job)
  : option (ModuleState * list Returned) :=
  match j with
  | CallFetchLicense =>
      let (st', r) := fetchLicense w st in Some (st', [r])
  | Settle p r =>
      match settle p r st with
      | Some st' => Some (st', [])
      | None => None
      end
  | RunFinally p =>
      match run_finally p st with
      | Some st' => Some (st', [])
      | None => None
      end
  end.

Fixpoint run (w : World) (st : ModuleState) (jobs : list Job)
  : option (ModuleState * list Returned) :=
  match jobs with
  | [] => Some (st, [])
  | j :: rest =>
      match step w st j with
      | Some (st', rs) =>
          match run w st' rest with
          | Some (st'', rs') => Some (st'', (rs ++ rs')%list)
          | None => None
          end
      | None => None
      end
  end.

Definition reachable (w : World) (st : ModuleState) : Prop :=
  exists jobs rs, run w initial_state jobs = Some (st, rs).

(** What a caller eventually reads from what it holds. *)
Definition eventual_result (st : ModuleState) (r : Returned) : option Settlement :=
  match r with
  | ResolvedNull => Some (Ok None)
  | SharedPromise p =>
      match nth_error (promise_table st) p with
      | Some c => settlement c
      | None => None
      end
  end.

Definition is_call (j : Job) : bool :=
  match j with
  | CallFetchLicense => true
  | _ => false
  end.

Definition is_finally (j : Job) : bool :=
  match j with
  | RunFinally _ => true
  | _ => false
  end.

(** ** The exported accessors *)

(** The function given to [reactCache]; [now] is what [new Date()] reads. *)
Definition getEnterpriseLicense_fn (w : World) (now : Z) : M TEnterpriseLicenseResult :=
  ret {| active := true;
         features := Some {| isMultiOrgEnabled := true;
                             projects := Some infinity;
                             twoFactorAuth := true;
                             sso := true;
                             whitelabel := true;
                             removeBranding := true;
                             contacts := true;
                             ai := true;
                             saml := true;
                             spamProtection := true;
                             auditLogs := true;
                             multiLanguageSurveys := true;
                             accessControl := true;
                             quotas := true |};
         lastChecked := now;
         isPendingDowngrade := false;
         fallbackLevel := live;
         status := status_active |}.

(** React's [cache]: inside one request the first call runs the function
    and later calls get what the first one got, without running it. *)
Definition reactCache {A} (fn : Z -> M A) (memo : option (result js_error A)) (now : Z)
  : M A * option (result js_error A) :=
  match memo with
  | Some r => (([], r), memo)
  | None => let c := fn now in (c, Some (outcome c))
  end.

Definition getEnterpriseLicense (w : World)
  : option (result js_error TEnterpriseLicenseResult) -> Z ->
    M TEnterpriseLicenseResult * option (result js_error TEnterpriseLicenseResult) :=
  reactCache (getEnterpriseLicense_fn w).

(** The calls of one request, made at the given instants. *)
Fixpoint request_calls (w : World)
         (memo : option (result js_error TEnterpriseLicenseResult))
         (instants : list Z) : list (M TEnterpriseLicenseResult) :=
  match instants with
  | [] => []
  | now :: rest =>
      let (c, memo') := getEnterpriseLicense w memo now in
      c :: request_calls w memo' rest
  end.

Definition getLicenseFeatures (w : World) : M (option TEnterpriseLicenseFeatures) :=
  ret (Some {| isMultiOrgEnabled := true;
               projects := Some infinity;
               twoFactorAuth := true;
               sso := true;
               whitelabel := true;
               removeBranding := true;
               contacts := true;
               ai := true;
               saml := true;
               spamProtection := true;
               auditLogs := true;
               multiLanguageSurveys := true;
               accessControl := true;
               quotas := true |}).

(** ** Reading a trace *)

Definition is_fetch (ev : Event) : bool :=
  match ev with
  | EvFetch _ _ _ => true
  | _ => false
  end.

(** The number of requests sent to the license server. *)
Definition network_calls (t : list Event) : nat := List.length (filter is_fetch t).

(** The delays slept, in order. *)
Fixpoint sleeps (t : list Event) : list Z :=
  match t with
  | [] => []
  | EvSleep ms :: rest => ms :: sleeps rest
  | _ :: rest => sleeps rest
  end.

(** The effects that gather usage context. *)
Definition is_gathering (ev : Event) : bool :=
  match ev with
  | EvGetInstanceId | EvResponseCount _ _ => true
  | _ => false
  end.

(** ** Vocabulary of the statements *)

Definition key_configured (w : World) : bool :=
  truthy (ENTERPRISE_LICENSE_KEY (env w)).

(** A quota that passed validation is [null] or a number the number check
    accepts. *)
Definition projects_accepted (number_ok : float -> bool)
           (f : TEnterpriseLicenseFeatures) : Prop :=
  match projects f with
  | Some x => number_ok x = true
  | None => True
  end.

(** Every request to the license server fails at the network level. *)
Definition authority_unreachable (w : World) : Prop :=
  forall n, exists name, http (attempts w n) = Err name.

(** The previous-result slot holds an [active] outcome stored at [T0]. *)
Definition previous_active_stored_at (w : World) (T0 : Z) : Prop :=
  exists f,
    PREVIOUS_RESULT_CACHE (cache_store w) = Some (mkCacheEntry (mkDetails active_ f) T0).

(** The feature set with every flag on and no bound on projects. *)
Definition all_enabled : TEnterpriseLicenseFeatures :=
  mkFeatures true (Some infinity) true true true true true true true true true
             true true true.

Definition granted (now : Z) : TEnterpriseLicenseResult :=
  mkResult true (Some all_enabled) now false live status_active.

(** The prerequisites of the attempt succeed, so the request is sent: an
    instance id is there (or the run is an E2E test), the count is there,
    and the proxy agent, when one is configured, could be built. *)
Definition instance_identified (w : World) (a : Attempt) : bool :=
  E2E_TESTING (env w)
  || match getInstanceId a with
     | Ok id => truthy id
     | Err _ => false
     end.

Definition count_available (a : Attempt) : bool :=
  match response_count a with
  | Ok _ => true
  | Err _ => false
  end.

Definition agent_available (w : World) : bool :=
  match outcome (make_agent w (nullish_or (HTTPS_PROXY (env w)) (HTTP_PROXY (env w)))) with
  | Ok _ => true
  | Err _ => false
  end.

Definition request_sent (w : World) (retryCount : nat) : bool :=
  instance_identified w (attempts w retryCount)
  && count_available (attempts w retryCount)
  && agent_available w.

(** The request of this attempt, if sent, does not come back with a 2xx
    response: the network fails, the timeout aborts it, or the status is
    outside 200..299. *)
Definition operational_failure (a : Attempt) : bool :=
  match http a with
  | Err _ => true
  | Ok res => negb (res_ok res)
  end.

(** Concrete worlds for the examples: a key or none, no proxy, zod 3's
    number check (anything but NaN), an instance id and a count at hand. *)
Definition sample_env (key : option string) : Env :=
  mkEnv key None false None None None false.

Definition zod3_number_ok (x : float) : bool := negb (is_nan x).

Definition sample_world (key : option string) (answers : nat -> Attempt)
           (store : CacheStore) : World :=
  mkWorld (sample_env key) zod3_number_ok 2025 (fun url => Ok url) answers store
          (fun k => k) (fun i => i) (fun i => i).

Definition answer (r : result string Response) : Attempt :=
  mkAttempt (Ok (Some "instance-1")) (Ok 42) 10 r.

Definition empty_store : CacheStore := mkCacheStore None None.

Definition unreachable_world (key : option string) (store : CacheStore) : World :=
  sample_world key (fun _ => answer (Err "ECONNREFUSED")) store.

Definition stored_active (T0 : Z) : CacheStore :=
  mkCacheStore None (Some (mkCacheEntry (mkDetails active_ all_enabled) T0)).

(** A world whose authority answers every request with the same status
    and body. *)
Definition answering_world (status : Z) (body : result string jsvalue) : World :=
  sample_world (Some "license-key") (fun _ => answer (Ok (mkResponse status body)))
               empty_store.

(** A feature set with a bound on projects. *)
Definition bounded_features : TEnterpriseLicenseFeatures :=
  mkFeatures true (Some 25%float) true false true false true false true false
             true false true false.

(** A well-formed response body. *)
Definition valid_body : jsvalue :=
  JObject [("data", serializeDetails (mkDetails active_ all_enabled))].

(** A response body whose status is outside the schema's enum. *)
Definition malformed_data : jsvalue :=
  JObject [("status", JString "revoked"); ("features", serializeFeatures all_enabled)].

Definition malformed_body : jsvalue := JObject [("data", malformed_data)].

(** The state of the promises that [fetchLicense] keeps: a promise that is
    not the one in [fetchLicensePromise] has settled and its [finally]
    callback has run; the one in the variable exists and its callback has
    not run yet; a callback runs only after its promise settled; and each
    promise stands for one [cache.withCache] invocation. *)
Definition flight_inv (st : ModuleState) : Prop :=
  (forall p c, nth_error (promise_table st) p = Some c ->
               fetchLicensePromise st <> Some p -> finally_ran c = true)
  /\ (forall p, fetchLicensePromise st = Some p ->
                exists c, nth_error (promise_table st) p = Some c
                          /\ finally_ran c = false)
  /\ (forall p c, nth_error (promise_table st) p = Some c ->
                  finally_ran c = true -> settlement c <> None)
  /\ List.length (withCache_calls st) = List.length (promise_table st).

(** ** Vocabulary of the further properties *)

(** The delay slept before the retry that follows attempt [k]. *)
Definition backoff_delay (k : nat) : Z :=
  CONFIG.CACHE.RETRY_DELAY_MS * 2 ^ Z.of_nat k.

(** The delays a call entered with [retryCount] can still sleep, in order. *)
Definition backoff_schedule (retryCount : nat) : list Z :=
  map backoff_delay (seq retryCount (CONFIG.CACHE.MAX_RETRIES - retryCount)).

Definition sum_Z (l : list Z) : Z := fold_right Z.add 0 l.

Definition is_set_timeout (ev : Event) : bool :=
  match ev with
  | EvSetTimeout _ => true
  | _ => false
  end.

Definition is_clear_timeout (ev : Event) : bool :=
  match ev with
  | EvClearTimeout => true
  | _ => false
  end.

Definition is_error_log (ev : Event) : bool :=
  match ev with
  | EvLogError _ => true
  | _ => false
  end.

(** The number of promises in the variable: one or none. *)
Definition in_flight (st : ModuleState) : nat :=
  match fetchLicensePromise st with
  | Some _ => 1
  | None => 0
  end.

Definition count_finally (jobs : list Job) : nat :=
  List.length (filter is_finally jobs).

Definition count_calls (jobs : list Job) : nat :=
  List.length (filter is_call jobs).

(** The properties a serialized feature set has, by name. *)
Definition feature_properties (f : TEnterpriseLicenseFeatures)
  : list (string * jsvalue) :=
  match serializeFeatures f with
  | JObject props => props
  | _ => []
  end.

(** The keys of the feature schema. *)
Definition feature_keys : list string :=
  ["isMultiOrgEnabled"; "projects"; "twoFactorAuth"; "sso"; "whitelabel";
   "removeBranding"; "contacts"; "ai"; "saml"; "spamProtection"; "auditLogs";
   "multiLanguageSurveys"; "accessControl"; "quotas"].

(** The delays of the timers armed, in order. *)
Fixpoint timeouts (t : list Event) : list Z :=
  match t with
  | [] => []
  | EvSetTimeout ms :: rest => ms :: timeouts rest
  | _ :: rest => timeouts rest
  end.

(** The number of timers cleared. *)
Definition timers_cleared (t : list Event) : nat :=
  List.length (filter is_clear_timeout t).

(** The number of error-level lines logged by the [catch] clause. *)
Definition errors_logged (t : list Event) : nat :=
  List.length (filter is_error_log t).

(** What the request of attempt [retryCount] carries: the configured key,
    the count the database answered, the instance id the lookup answered
    (none in an E2E run), and the proxy agent built from the environment. *)
Definition attempt_request (w : World) (retryCount : nat)
           (p : Payload) (agent : option string) : Prop :=
  licenseKey p = match ENTERPRISE_LICENSE_KEY (env w) with
                 | Some k => k
                 | None => ""
                 end
  /\ response_count (attempts w retryCount) = Ok (usage_responseCount p)
  /\ (if E2E_TESTING (env w)
      then payload_instanceId p = None
      else getInstanceId (attempts w retryCount) = Ok (payload_instanceId p)
           /\ truthy (payload_instanceId p) = true)
  /\ outcome (make_agent w (nullish_or (HTTPS_PROXY (env w)) (HTTP_PROXY (env w))))
     = Ok agent.

(** Concrete worlds: an E2E run, and a run behind proxies. *)
Definition e2e_world : World :=
  mkWorld (mkEnv (Some "license-key") None true None None (Some "staging") false)
          zod3_number_ok 2025 (fun url => Ok url)
          (fun _ => mkAttempt (Err "never asked") (Ok 7) 10
                              (Ok (mkResponse 200 (Ok valid_body))))
          empty_store (fun k => k) (fun i => i) (fun i => i).

Definition proxied_world (https_proxy http_proxy : option string) : World :=
  mkWorld (mkEnv (Some "license-key") None false https_proxy http_proxy None false)
          zod3_number_ok 2025 (fun url => Ok url)
          (fun _ => answer (Ok (mkResponse 200 (Ok valid_body))))
          empty_store (fun k => k) (fun i => i) (fun i => i).

(** What a 2xx response yields: the details the validator makes of the
    [data] property of its body, when the body parses to an object and the
    validator accepts that property; nothing otherwise. *)
Definition body_details (w : World) (res : Response)
  : option TEnterpriseLicenseDetails :=
  match res_json res with
  | Ok (JObject props) =>
      match validateLicenseDetails (zod_number_ok w) (get_prop props "data") with
      | Ok d => Some d
      | Err _ => None
      end
  | _ => None
  end.

(** The requests and the sleeps of a trace, in the order they happen. *)
Inductive Beat : Type :=
| Request
| Slept (ms : Z).

Fixpoint beats (t : list Event) : list Beat :=
  match t with
  | [] => []
  | EvFetch _ _ _ :: rest => Request :: beats rest
  | EvSleep ms :: rest => Slept ms :: beats rest
  | _ :: rest => beats rest
  end.

(** The requests of a trace, in order, each with what it carries. *)
Fixpoint fetches (t : list Event) : list (string * Payload * option string) :=
  match t with
  | [] => []
  | EvFetch endpoint p agent :: rest => (endpoint, p, agent) :: fetches rest
  | _ :: rest => fetches rest
  end.

(** A world whose answers differ from attempt to attempt: a 503 for the
    first request, a valid body for the second, each attempt with its own
    instance id and count. *)
Definition changing_world : World :=
  sample_world (Some "license-key")
    (fun n => match n with
              | O => mkAttempt (Ok (Some "instance-a")) (Ok 1) 10
                               (Ok (mkResponse 503 (Err "unread")))
              | _ => mkAttempt (Ok (Some "instance-b")) (Ok 2) 10
                               (Ok (mkResponse 200 (Ok valid_body)))
              end)
    empty_store.

(** * Theorems *)

(** ** The validator *)

Lemma zap_Ok_inv {A B} (f : zres (A -> B)) (x : zres A) (b : B) :
  f <*> x = Ok b -> exists g a, f = Ok g /\ x = Ok a /\ b = g a.
Proof.
  destruct f as [g | e1], x as [a | e2]; cbn; intros H; inversion H.
  exists g, a. auto.
Qed.

Lemma z_nullable_number_accepted number_ok path v p :
  z_nullable (z_number number_ok) path v = Ok p ->
  match p with Some x => number_ok x = true | None => True end.
Proof.
  destruct v; cbn; intros H; inversion H; subst; auto.
  destruct (number_ok x) eqn:Hx; cbn in *; inversion H; subst. exact Hx.
Qed.

Lemma LicenseFeaturesSchema_accepted number_ok path v f :
  LicenseFeaturesSchema number_ok path v = Ok f -> projects_accepted number_ok f.
Proof.
  destruct v; cbn; try discriminate. intros H.
  repeat match type of H with
         | _ <*> _ = Ok _ =>
             apply zap_Ok_inv in H;
             let g := fresh "g" in let a := fresh "a" in
             let Hf := fresh "Hf" in let Hx := fresh "Hx" in
             destruct H as (g & a & Hf & Hx & ->); rename Hf into H
         end.
  destruct (field props path "isMultiOrgEnabled" z_boolean); inversion H; subst.
  unfold projects_accepted; cbn.
  eapply z_nullable_number_accepted; eauto.
Qed.

Lemma validateLicenseDetails_accepted number_ok raw d :
  validateLicenseDetails number_ok raw = Ok d ->
  projects_accepted number_ok (details_features d).
Proof.
  unfold validateLicenseDetails, LicenseDetailsSchema.
  destruct raw; try discriminate. intros H.
  apply zap_Ok_inv in H. destruct H as (g & f & H & Hf & ->).
  apply zap_Ok_inv in H. destruct H as (g' & s & H & Hs & ->).
  inversion H; subst. cbn.
  eapply LicenseFeaturesSchema_accepted; eauto.
Qed.

Lemma validate_serializeDetails number_ok d :
  projects_accepted number_ok (details_features d) ->
  validateLicenseDetails number_ok (serializeDetails d) = Ok d.
Proof.
  destruct d as [s f]. destruct f. unfold projects_accepted. cbn.
  intros Hp. destruct s; destruct projects0 as [x |]; cbn;
    try rewrite Hp; reflexivity.
Qed.

(** In memory, validation is idempotent on its own output: the object an
    outcome is, validated again, is accepted and is the same outcome. *)
Theorem validateLicenseDetails_idempotent :
  forall (number_ok : float -> bool) (raw : jsvalue) (d : TEnterpriseLicenseDetails),
    validateLicenseDetails number_ok raw = Ok d ->
    validateLicenseDetails number_ok (serializeDetails d) = Ok d.
Proof.
  intros number_ok raw d H.
  apply validate_serializeDetails.
  eapply validateLicenseDetails_accepted; eauto.
Qed.

(** ** The fetcher on concrete worlds *)

Example fetch_valid_response :
  fetchLicenseFromServerInternal (answering_world 200 (Ok valid_body)) 0 =
  ([EvGetInstanceId; EvResponseCount 2025 2026; EvSetTimeout 5000;
    EvFetch "https://ee.formbricks.com/api/licenses/check"
            (mkPayload "license-key" 42 (Some "instance-1")) None;
    EvClearTimeout; EvLogDebug "License check API response received"],
   Ok (Some (mkDetails active_ all_enabled))).
Proof. vm_compute. reflexivity. Qed.

Example fetch_network_failure :
  fetchLicenseFromServerInternal (unreachable_world (Some "license-key") empty_store) 0 =
  ([EvGetInstanceId; EvResponseCount 2025 2026; EvSetTimeout 5000;
    EvFetch "https://ee.formbricks.com/api/licenses/check"
            (mkPayload "license-key" 42 (Some "instance-1")) None;
    EvLogError "Error while fetching license from server"],
   Ok None).
Proof. vm_compute. reflexivity. Qed.

(** A 503 on the first attempt and a valid answer on the second: one sleep
    of a second, two requests, and the details are returned. *)
Example fetch_recovers_after_retry :
  let w := sample_world (Some "license-key")
             (fun n => match n with
                       | O => answer (Ok (mkResponse 503 (Err "unread")))
                       | _ => answer (Ok (mkResponse 200 (Ok valid_body)))
                       end)
             empty_store in
  outcome (fetchLicenseFromServerInternal w 0) = Ok (Some (mkDetails active_ all_enabled))
  /\ sleeps (trace (fetchLicenseFromServerInternal w 0)) = [1000]
  /\ network_calls (trace (fetchLicenseFromServerInternal w 0)) = 2%nat.
Proof. vm_compute. repeat split. Qed.

Example fetch_without_instance_id :
  fetchLicenseFromServerInternal
    (sample_world (Some "license-key")
                  (fun _ => mkAttempt (Ok None) (Ok 42) 1500
                                      (Ok (mkResponse 200 (Ok valid_body))))
                  empty_store) 0 =
  ([EvGetInstanceId; EvResponseCount 2025 2026;
    EvLogWarn "Slow license check prerequisite data fetching (DB count)"],
   Ok None).
Proof. vm_compute. reflexivity. Qed.

Example validate_rejects_missing_flag :
  validateLicenseDetails zod3_number_ok
    (JObject [("status", JString "active");
              ("features", JObject [("isMultiOrgEnabled", JBool true)])])
  = Err (map (fun k => mkIssue invalid_type ["features"; k])
             ["projects"; "twoFactorAuth"; "sso"; "whitelabel"; "removeBranding";
              "contacts"; "ai"; "saml"; "spamProtection"; "auditLogs";
              "multiLanguageSurveys"; "accessControl"; "quotas"]).
Proof. vm_compute. reflexivity. Qed.

(** ** The exported accessors *)

Lemma request_calls_granted w instants :
  forall memo,
    (memo = None \/ exists t, memo = Some (Ok (granted t))) ->
    Forall (fun c => exists now, c = ([], Ok (granted now)))
           (request_calls w memo instants).
Proof.
  induction instants as [| now rest IH]; intros memo Hmemo; cbn.
  - constructor.
  - destruct Hmemo as [-> | [t ->]]; cbn.
    + constructor.
      * exists now. reflexivity.
      * apply IH. right. exists now. reflexivity.
    + constructor.
      * exists t. reflexivity.
      * apply IH. right. exists t. reflexivity.
Qed.

(** C3: whatever the world holds (a key or none, a reachable authority or
    not, any cache content), every call of [getEnterpriseLicense] in a
    request returns the all-enabled active live result, with no effect at
    all, and so does [getLicenseFeatures], which never returns [null]; the
    only thing that varies is [lastChecked]. Neither reads the world: in
    two worlds that differ in key, authority or cache they return the
    same. *)
Theorem accessors_always_grant :
  forall (w : World) (instants : list Z),
    Forall (fun c =>
              exists now,
                c = ([], Ok {| active := true;
                               features := Some all_enabled;
                               lastChecked := now;
                               isPendingDowngrade := false;
                               fallbackLevel := live;
                               status := status_active |}))
           (request_calls w None instants)
    /\ (forall now, getEnterpriseLicense_fn w now = ([], Ok (granted now)))
    /\ getLicenseFeatures w = ([], Ok (Some all_enabled))
    /\ all_enabled =
         {| isMultiOrgEnabled := true; projects := Some infinity;
            twoFactorAuth := true; sso := true; whitelabel := true;
            removeBranding := true; contacts := true; ai := true;
            saml := true; spamProtection := true; auditLogs := true;
            multiLanguageSurveys := true; accessControl := true;
            quotas := true |}
    /\ (forall w' now,
          getEnterpriseLicense_fn w now = getEnterpriseLicense_fn w' now
          /\ getLicenseFeatures w = getLicenseFeatures w').
Proof.
  intros w instants. repeat split.
  apply (request_calls_granted w instants None). left. reflexivity.
Qed.

Lemma first_call_granted w now :
  fst (getEnterpriseLicense w None now) = ([], Ok (granted now)).
Proof. reflexivity. Qed.

(** C1, as the code has it: with no license key configured,
    [getEnterpriseLicense] makes no network call and returns
    status [active] with [active = true]. *)
Theorem no_key_still_granted :
  forall (w : World) (now : Z),
    key_configured w = false ->
    exists r,
      fst (getEnterpriseLicense w None now) = ([], Ok r)
      /\ status r = status_active
      /\ active r = true
      /\ network_calls (trace (fst (getEnterpriseLicense w None now))) = 0%nat.
Proof.
  intros w now _. exists (granted now). repeat split.
Qed.

Lemma no_key_still_granted_witness :
  key_configured (sample_world None (fun _ => answer (Err "unreachable")) empty_store) = false
  /\ exists r,
      fst (getEnterpriseLicense
             (sample_world None (fun _ => answer (Err "unreachable")) empty_store)
             None 1000) = ([], Ok r)
      /\ status r = status_active
      /\ active r = true
      /\ network_calls
           (trace (fst (getEnterpriseLicense
                          (sample_world None (fun _ => answer (Err "unreachable")) empty_store)
                          None 1000))) = 0%nat.
Proof.
  split.
  - reflexivity.
  - apply (no_key_still_granted
             (sample_world None (fun _ => answer (Err "unreachable")) empty_store) 1000).
    reflexivity.
Defined.

(** C1 as stated fails: with no key the status is not [no-license] and
    [active] is not [false]. *)
Lemma no_key_not_no_license :
  key_configured (sample_world None (fun _ => answer (Err "unreachable")) empty_store) = false
  /\ ~ (exists r,
          outcome (fst (getEnterpriseLicense
                          (sample_world None (fun _ => answer (Err "unreachable")) empty_store)
                          None 1000)) = Ok r
          /\ status r = status_no_license
          /\ active r = false).
Proof.
  split.
  - reflexivity.
  - intros [r [Hr [Hs _]]]. cbn in Hr. inversion Hr; subst. discriminate Hs.
Qed.

(** C2, as the code has it: with the authority unreachable and an
    [active] previous result stored at [T0], a call at any instant from
    [T0 + FETCH_TTL] on returns the live, active result with no pending
    downgrade. *)
Theorem unreachable_still_live :
  forall (w : World) (T0 t : Z),
    authority_unreachable w ->
    previous_active_stored_at w T0 ->
    T0 + CONFIG.CACHE.FETCH_LICENSE_TTL_MS <= t ->
    exists r,
      fst (getEnterpriseLicense w None t) = ([], Ok r)
      /\ fallbackLevel r = live
      /\ active r = true
      /\ isPendingDowngrade r = false
      /\ status r = status_active.
Proof.
  intros w T0 t _ _ _. exists (granted t). repeat split.
Qed.

Lemma unreachable_world_unreachable key store :
  authority_unreachable (unreachable_world key store).
Proof. intros n. exists "ECONNREFUSED". reflexivity. Qed.

Lemma stored_active_previous key T0 :
  previous_active_stored_at (unreachable_world key (stored_active T0)) T0.
Proof. exists all_enabled. reflexivity. Qed.

Lemma unreachable_still_live_witness :
  exists r,
    fst (getEnterpriseLicense
           (unreachable_world (Some "license-key") (stored_active 0)) None
           (0 + CONFIG.CACHE.PREVIOUS_RESULT_TTL_MS + CONFIG.CACHE.GRACE_PERIOD_MS))
    = ([], Ok r)
    /\ fallbackLevel r = live
    /\ active r = true
    /\ isPendingDowngrade r = false
    /\ status r = status_active.
Proof.
  apply (unreachable_still_live
           (unreachable_world (Some "license-key") (stored_active 0)) 0
           (0 + CONFIG.CACHE.PREVIOUS_RESULT_TTL_MS + CONFIG.CACHE.GRACE_PERIOD_MS)).
  - intros n. exists "ECONNREFUSED". reflexivity.
  - exists all_enabled. reflexivity.
  - vm_compute. discriminate.
Defined.

(** C2 as stated fails in each of its three windows: at [T0 + FETCH_TTL]
    the level is not [cached]; at [T0 + PREVIOUS_TTL] it is not [grace] and
    no downgrade is pending; at [T0 + PREVIOUS_TTL + GRACE_PERIOD] the
    level is not [default], the status is not [unreachable] and [active]
    is not [false]. *)
Lemma unreachable_never_degrades :
  let w := unreachable_world (Some "license-key") (stored_active 0) in
  let at_ t := outcome (fst (getEnterpriseLicense w None t)) in
  authority_unreachable w
  /\ previous_active_stored_at w 0
  /\ ~ (exists r, at_ (0 + CONFIG.CACHE.FETCH_LICENSE_TTL_MS) = Ok r
                  /\ fallbackLevel r = cached /\ active r = true)
  /\ ~ (exists r, at_ (0 + CONFIG.CACHE.PREVIOUS_RESULT_TTL_MS) = Ok r
                  /\ fallbackLevel r = grace /\ active r = true
                  /\ isPendingDowngrade r = true)
  /\ ~ (exists r, at_ (0 + CONFIG.CACHE.PREVIOUS_RESULT_TTL_MS
                         + CONFIG.CACHE.GRACE_PERIOD_MS) = Ok r
                  /\ fallbackLevel r = default /\ status r = status_unreachable
                  /\ active r = false).
Proof.
  cbv zeta. split; [apply unreachable_world_unreachable |].
  split; [apply stored_active_previous |].
  repeat split; intros [r [Hr [Hl _]]]; cbn in Hr; inversion Hr; subst;
    discriminate Hl.
Qed.

(** ** The fetcher: guards *)

Lemma fetchLicenseFromServerInternal_no_key w retryCount :
  key_configured w = false ->
  fetchLicenseFromServerInternal w retryCount = ([], Ok None).
Proof.
  unfold key_configured. intros H. simp fetchLicenseFromServerInternal.
  rewrite H. reflexivity.
Qed.

Lemma fetchLicenseFromServerInternal_build_phase w retryCount :
  is_build_phase (env w) = true ->
  fetchLicenseFromServerInternal w retryCount = ([], Ok None).
Proof.
  intros H. simp fetchLicenseFromServerInternal.
  destruct (negb (truthy (ENTERPRISE_LICENSE_KEY (env w)))); cbn; [reflexivity |].
  rewrite H. reflexivity.
Qed.

(** C8: without a license key, or during the production build phase, the
    internal fetch and [fetchLicense] return [null] at once: no usage
    context is gathered, nothing is sent, the cache is not asked and the
    module state is left as it was. *)
Theorem fetch_short_circuits :
  forall (w : World) (retryCount : nat) (st : ModuleState),
    key_configured w = false \/ is_build_phase (env w) = true ->
    fetchLicenseFromServerInternal w retryCount = ([], Ok None)
    /\ fetchLicense w st = (st, ResolvedNull).
Proof.
  intros w retryCount st [H | H]; split.
  - apply fetchLicenseFromServerInternal_no_key; exact H.
  - unfold fetchLicense. unfold key_configured in H. rewrite H. reflexivity.
  - apply fetchLicenseFromServerInternal_build_phase; exact H.
  - unfold fetchLicense. rewrite H.
    destruct (negb (truthy (ENTERPRISE_LICENSE_KEY (env w)))); reflexivity.
Qed.

Lemma fetch_short_circuits_witness :
  fetchLicenseFromServerInternal
    (sample_world None (fun _ => answer (Ok (mkResponse 200 (Ok JNull)))) empty_store) 0
  = ([], Ok None)
  /\ fetchLicense
       (sample_world None (fun _ => answer (Ok (mkResponse 200 (Ok JNull)))) empty_store)
       initial_state
     = (initial_state, ResolvedNull).
Proof.
  apply (fetch_short_circuits
           (sample_world None (fun _ => answer (Ok (mkResponse 200 (Ok JNull)))) empty_store)
           0 initial_state).
  left. reflexivity.
Defined.

(** ** The fetcher: one attempt after another *)

(** Past the two guards, a call is its [try] block, followed by the next
    call when the block asks for one. *)
Lemma fetchLicenseFromServerInternal_step w retryCount :
  key_configured w = true ->
  is_build_phase (env w) = false ->
  fetchLicenseFromServerInternal w retryCount =
  match try_block w retryCount with
  | (t, Ok (Return v)) => (t, Ok v)
  | (t, Ok Delegate) =>
      let next := fetchLicenseFromServerInternal w (retryCount + 1)%nat in
      ((t ++ trace next)%list, outcome next)
  | (t, Err error) => (t, Err error)
  end.
Proof.
  unfold key_configured. intros Hkey Hbuild.
  funelim (fetchLicenseFromServerInternal w retryCount).
  all: try (rewrite Hkey in *; discriminate).
  all: try (rewrite Hbuild in *; discriminate).
  all: match goal with E : try_block _ _ = _ |- _ => rewrite E end; reflexivity.
Qed.

(** Trace and outcome of the monad operations. *)
Lemma trace_bind {A B} (c : M A) (k : A -> M B) :
  trace (bind c k) =
  (trace c ++ match outcome c with
              | Ok a => trace (k a)
              | Err _ => []
              end)%list.
Proof.
  destruct c as [t [a | e]]; cbn.
  - destruct (k a); reflexivity.
  - rewrite app_nil_r. reflexivity.
Qed.

Lemma outcome_bind {A B} (c : M A) (k : A -> M B) :
  outcome (bind c k) =
  match outcome c with
  | Ok a => outcome (k a)
  | Err e => Err e
  end.
Proof.
  destruct c as [t [a | e]]; cbn; [destruct (k a) |]; reflexivity.
Qed.

Lemma trace_try_catch {A} (body : M A) handler :
  trace (try_catch body handler) =
  (trace body ++ match outcome body with
                 | Ok _ => []
                 | Err e => trace (handler e)
                 end)%list.
Proof.
  destruct body as [t [a | e]]; cbn.
  - rewrite app_nil_r. reflexivity.
  - destruct (handler e); reflexivity.
Qed.

Lemma outcome_try_catch {A} (body : M A) handler :
  outcome (try_catch body handler) =
  match outcome body with
  | Ok a => Ok a
  | Err e => outcome (handler e)
  end.
Proof.
  destruct body as [t [a | e]]; cbn; [| destruct (handler e)]; reflexivity.
Qed.

Lemma M_eta {A} (c : M A) : c = (trace c, outcome c).
Proof. destruct c; reflexivity. Qed.

Lemma network_calls_app t1 t2 :
  network_calls (t1 ++ t2) = (network_calls t1 + network_calls t2)%nat.
Proof.
  unfold network_calls. rewrite filter_app, length_app. reflexivity.
Qed.

Lemma sleeps_app t1 t2 : sleeps (t1 ++ t2) = (sleeps t1 ++ sleeps t2)%list.
Proof.
  induction t1 as [| ev t1 IH]; cbn; [reflexivity |].
  destruct ev; cbn; rewrite ?IH; reflexivity.
Qed.

(** The fetcher again, read through [trace] and [outcome]. *)
Lemma fetchLicenseFromServerInternal_next w retryCount :
  key_configured w = true ->
  is_build_phase (env w) = false ->
  fetchLicenseFromServerInternal w retryCount =
  match outcome (try_block w retryCount) with
  | Ok (Return v) => (trace (try_block w retryCount), Ok v)
  | Ok Delegate =>
      ((trace (try_block w retryCount)
          ++ trace (fetchLicenseFromServerInternal w (retryCount + 1)%nat))%list,
       outcome (fetchLicenseFromServerInternal w (retryCount + 1)%nat))
  | Err error => (trace (try_block w retryCount), Err error)
  end.
Proof.
  intros Hkey Hbuild.
  rewrite (fetchLicenseFromServerInternal_step w retryCount Hkey Hbuild).
  destruct (try_block w retryCount) as [t [[v |] | e]]; reflexivity.
Qed.

(** *** What the guarded block can throw *)

Definition is_api_error (e : js_error) : bool :=
  match e with
  | LicenseApiError _ => true
  | _ => false
  end.

(** A computation that never throws a [LicenseApiError]. *)
Definition api_error_free {A} (c : M A) : Prop :=
  forall e, outcome c = Err e -> is_api_error e = false.

Lemma api_error_free_bind {A B} (c : M A) (k : A -> M B) :
  api_error_free c -> (forall a, api_error_free (k a)) ->
  api_error_free (bind c k).
Proof.
  intros Hc Hk e. rewrite outcome_bind.
  destruct (outcome c) as [a | e'] eqn:Ho.
  - apply Hk.
  - intros H. inversion H; subst. apply Hc. exact Ho.
Qed.

Lemma api_error_free_ret {A} (a : A) : api_error_free (ret a).
Proof. intros e H. discriminate H. Qed.

Lemma api_error_free_emit ev : api_error_free (emit ev).
Proof. intros e H. discriminate H. Qed.

Lemma api_error_free_await {A} (r : result string A) : api_error_free (await r).
Proof. destruct r; intros ? H; inversion H; reflexivity. Qed.

Lemma api_error_free_get_data v : api_error_free (get_data v).
Proof. destruct v; intros ? H; inversion H; reflexivity. Qed.

Lemma api_error_free_trackApiError error : api_error_free (trackApiError error).
Proof. destruct error; intros ? H; discriminate H. Qed.

Lemma api_error_free_make_agent w p : api_error_free (make_agent w p).
Proof.
  unfold make_agent. destruct (truthy p); [| apply api_error_free_ret].
  destruct p; [| apply api_error_free_ret].
  apply api_error_free_bind; [apply api_error_free_await |].
  intros a. apply api_error_free_ret.
Qed.

Create HintDb api_free.
#[local] Hint Resolve api_error_free_ret api_error_free_emit api_error_free_await
  api_error_free_get_data api_error_free_trackApiError api_error_free_make_agent
  : api_free.

Ltac api_free :=
  repeat first
    [ apply api_error_free_bind; [| intros ? ]
    | match goal with
      | |- api_error_free (if ?c then _ else _) => destruct c
      | |- api_error_free (match ?c with Ok _ => _ | Err _ => _ end) => destruct c
      end
    | solve [ auto with api_free ]
    | (intros ? Hthrow; inversion Hthrow; reflexivity) ].

Lemma api_error_free_handle_response w retryCount res :
  api_error_free (handle_response w retryCount res).
Proof. unfold handle_response, sleep. api_free. Qed.

Lemma api_error_free_guarded_block w retryCount :
  api_error_free (guarded_block w retryCount).
Proof.
  unfold guarded_block, gather_prerequisites.
  pose proof (api_error_free_handle_response w retryCount).
  api_free; auto.
Qed.

(** The [try] statement as a whole throws nothing. *)
Lemma try_block_returns w retryCount :
  exists c, outcome (try_block w retryCount) = Ok c.
Proof.
  unfold try_block. rewrite outcome_try_catch.
  destruct (outcome (guarded_block w retryCount)) as [c | e] eqn:Ho.
  - exists c. reflexivity.
  - apply api_error_free_guarded_block in Ho.
    destruct e; try discriminate Ho; exists (Return None); reflexivity.
Qed.

Lemma fetchLicenseFromServerInternal_returns w retryCount :
  exists v, outcome (fetchLicenseFromServerInternal w retryCount) = Ok v.
Proof.
  funelim (fetchLicenseFromServerInternal w retryCount).
  - exists None. reflexivity.
  - exists None. reflexivity.
  - exists v. reflexivity.
  - cbn. assumption.
  - destruct (try_block_returns w retryCount) as [c Hc].
    rewrite e in Hc. discriminate Hc.
Qed.

(** *** An attempt whose request is sent *)

Lemma trace_make_agent w p : trace (make_agent w p) = [].
Proof.
  unfold make_agent. destruct (truthy p); [| reflexivity].
  destruct p as [url |]; [| reflexivity].
  cbn. destruct (new_HttpsProxyAgent w url); reflexivity.
Qed.

Lemma handle_response_no_network w retryCount res :
  network_calls (trace (handle_response w retryCount res)) = 0%nat.
Proof.
  unfold handle_response.
  destruct (res_ok res).
  - destruct (res_json res) as [json | name]; [| reflexivity].
    cbn. destruct json; cbn; try reflexivity;
      destruct (validateLicenseDetails _ _); reflexivity.
  - cbn. destruct (_ && _); reflexivity.
Qed.

Ltac split_request_sent H :=
  unfold request_sent, instance_identified, count_available, agent_available in H;
  apply andb_prop in H; destruct H as [H ?Hagent];
  apply andb_prop in H; destruct H as [?Hid ?Hcount].

Ltac run_sent_attempt w retryCount H :=
  split_request_sent H;
  unfold guarded_block, gather_prerequisites;
  pose proof (trace_make_agent w
                (nullish_or (HTTPS_PROXY (env w)) (HTTP_PROXY (env w)))) as Htr;
  destruct (make_agent w _) as [ta [agent | e]];
    [| match goal with Hagent : _ = true |- _ => discriminate Hagent end];
  cbn in Htr; subst ta;
  destruct (response_count (attempts w retryCount)) as [n | e];
    [| match goal with Hcount : _ = true |- _ => discriminate Hcount end];
  destruct (E2E_TESTING (env w)); cbn -[handle_response] in *;
  [| destruct (getInstanceId (attempts w retryCount)) as [id | e];
     [| match goal with Hid : _ = true |- _ => discriminate Hid end];
     cbn -[handle_response];
     match goal with Hid : truthy _ = true |- _ => rewrite Hid end ];
  (destruct (1000 <? _); cbn -[handle_response];
   destruct (http (attempts w retryCount)) as [res | name];
   cbn -[handle_response];
   try (rewrite (M_eta (handle_response w retryCount res));
        cbn -[handle_response])).

Lemma guarded_block_sent_outcome w retryCount :
  request_sent w retryCount = true ->
  outcome (guarded_block w retryCount) =
  match http (attempts w retryCount) with
  | Ok res => outcome (handle_response w retryCount res)
  | Err name => Err (ExternalError name)
  end.
Proof.
  intros H. run_sent_attempt w retryCount H; reflexivity.
Qed.

Lemma guarded_block_sent_network_calls w retryCount :
  request_sent w retryCount = true ->
  network_calls (trace (guarded_block w retryCount)) = 1%nat.
Proof.
  intros H.
  run_sent_attempt w retryCount H; try reflexivity;
    unfold network_calls; cbn -[handle_response];
    fold (network_calls (trace (handle_response w retryCount res)));
    rewrite handle_response_no_network; reflexivity.
Qed.

Lemma guarded_block_sent_sleeps w retryCount :
  request_sent w retryCount = true ->
  sleeps (trace (guarded_block w retryCount)) =
  match http (attempts w retryCount) with
  | Ok res => sleeps (trace (handle_response w retryCount res))
  | Err _ => []
  end.
Proof.
  intros H. run_sent_attempt w retryCount H; reflexivity.
Qed.

Lemma beats_app t1 t2 : beats (t1 ++ t2) = (beats t1 ++ beats t2)%list.
Proof.
  induction t1 as [| ev t1 IH]; cbn; [reflexivity |].
  destruct ev; cbn; rewrite ?IH; reflexivity.
Qed.

(** The request of an attempt comes before anything its response leads
    to. *)
Lemma guarded_block_sent_beats w retryCount :
  request_sent w retryCount = true ->
  beats (trace (guarded_block w retryCount)) =
  Request :: match http (attempts w retryCount) with
             | Ok res => beats (trace (handle_response w retryCount res))
             | Err _ => []
             end.
Proof.
  intros H. run_sent_attempt w retryCount H; reflexivity.
Qed.

(** *** The [catch] clause and the whole [try] statement *)

Lemma catch_clause_swallows e :
  is_api_error e = false ->
  catch_clause e =
  ([EvLogError "Error while fetching license from server"], Ok (Return None)).
Proof. destruct e; intros H; try discriminate H; reflexivity. Qed.

Lemma try_block_of_guarded_Ok w retryCount c :
  outcome (guarded_block w retryCount) = Ok c ->
  try_block w retryCount = (trace (guarded_block w retryCount), Ok c).
Proof.
  unfold try_block, try_catch.
  destruct (guarded_block w retryCount) as [t [c' | e]]; cbn; intros H;
    inversion H; reflexivity.
Qed.

Lemma try_block_of_guarded_Err w retryCount e :
  outcome (guarded_block w retryCount) = Err e ->
  try_block w retryCount =
  ((trace (guarded_block w retryCount)
      ++ [EvLogError "Error while fetching license from server"])%list,
   Ok (Return None)).
Proof.
  intros H. pose proof (api_error_free_guarded_block w retryCount e H) as Hfree.
  unfold try_block, try_catch.
  destruct (guarded_block w retryCount) as [t [c' | e']]; cbn in *;
    inversion H; subst.
  rewrite (catch_clause_swallows e Hfree). reflexivity.
Qed.

Lemma network_calls_try_block w retryCount :
  network_calls (trace (try_block w retryCount)) =
  network_calls (trace (guarded_block w retryCount)).
Proof.
  destruct (outcome (guarded_block w retryCount)) as [c | e] eqn:Ho.
  - rewrite (try_block_of_guarded_Ok w retryCount c Ho). reflexivity.
  - rewrite (try_block_of_guarded_Err w retryCount e Ho). cbn [trace fst].
    rewrite network_calls_app. cbn. lia.
Qed.

Lemma sleeps_try_block w retryCount :
  sleeps (trace (try_block w retryCount)) =
  sleeps (trace (guarded_block w retryCount)).
Proof.
  destruct (outcome (guarded_block w retryCount)) as [c | e] eqn:Ho.
  - rewrite (try_block_of_guarded_Ok w retryCount c Ho). reflexivity.
  - rewrite (try_block_of_guarded_Err w retryCount e Ho). cbn [trace fst].
    rewrite sleeps_app. cbn. rewrite app_nil_r. reflexivity.
Qed.

(** *** Responses outside 2xx *)

Lemma retryable_not_ok res :
  includes retryable_statuses (res_status res) = true -> res_ok res = false.
Proof.
  unfold includes, retryable_statuses, res_ok. cbn. intros H.
  repeat (apply orb_prop in H; destruct H as [H | H]);
    try discriminate H; apply Z.eqb_eq in H; rewrite H; reflexivity.
Qed.

Lemma handle_response_failure w retryCount res :
  res_ok res = false ->
  handle_response w retryCount res =
  if (retryCount <? CONFIG.CACHE.MAX_RETRIES)%nat
     && includes retryable_statuses (res_status res)
  then ([EvTrackApiError (res_status res);
         EvSleep (CONFIG.CACHE.RETRY_DELAY_MS * 2 ^ Z.of_nat retryCount)],
        Ok Delegate)
  else ([EvTrackApiError (res_status res)], Ok (Return None)).
Proof.
  intros Hok. unfold handle_response. rewrite Hok.
  destruct (_ && _); reflexivity.
Qed.

(** An attempt that receives a retryable status: one request; below the
    bound it sleeps the backoff delay and asks for the next attempt, at the
    bound it returns [null]. *)
Lemma try_block_retryable w retryCount res :
  request_sent w retryCount = true ->
  http (attempts w retryCount) = Ok res ->
  includes retryable_statuses (res_status res) = true ->
  outcome (try_block w retryCount) =
    (if (retryCount <? CONFIG.CACHE.MAX_RETRIES)%nat
     then Ok Delegate else Ok (Return None))
  /\ sleeps (trace (try_block w retryCount)) =
    (if (retryCount <? CONFIG.CACHE.MAX_RETRIES)%nat
     then [CONFIG.CACHE.RETRY_DELAY_MS * 2 ^ Z.of_nat retryCount] else [])
  /\ network_calls (trace (try_block w retryCount)) = 1%nat.
Proof.
  intros Hsent Hhttp Hretry.
  pose proof (retryable_not_ok res Hretry) as Hok.
  pose proof (guarded_block_sent_outcome w retryCount Hsent) as Hout.
  pose proof (guarded_block_sent_sleeps w retryCount Hsent) as Hsl.
  rewrite Hhttp, (handle_response_failure w retryCount res Hok), Hretry,
    andb_true_r in Hout, Hsl.
  rewrite network_calls_try_block, sleeps_try_block,
    (guarded_block_sent_network_calls w retryCount Hsent), Hsl.
  destruct (retryCount <? CONFIG.CACHE.MAX_RETRIES)%nat;
    cbn in Hout; rewrite (try_block_of_guarded_Ok w retryCount _ Hout);
    repeat split.
Qed.

Lemma beats_try_block w retryCount :
  beats (trace (try_block w retryCount)) =
  beats (trace (guarded_block w retryCount)).
Proof.
  destruct (outcome (guarded_block w retryCount)) as [c | e] eqn:Ho.
  - rewrite (try_block_of_guarded_Ok w retryCount c Ho). reflexivity.
  - rewrite (try_block_of_guarded_Err w retryCount e Ho). cbn [trace fst].
    rewrite beats_app. cbn. rewrite app_nil_r. reflexivity.
Qed.

(** In an attempt that receives a retryable status the request comes
    first and the sleep, if any, after it. *)
Lemma try_block_retryable_beats w retryCount res :
  request_sent w retryCount = true ->
  http (attempts w retryCount) = Ok res ->
  includes retryable_statuses (res_status res) = true ->
  beats (trace (try_block w retryCount)) =
  Request :: (if (retryCount <? CONFIG.CACHE.MAX_RETRIES)%nat
              then [Slept (CONFIG.CACHE.RETRY_DELAY_MS * 2 ^ Z.of_nat retryCount)]
              else []).
Proof.
  intros Hsent Hhttp Hretry.
  pose proof (retryable_not_ok res Hretry) as Hok.
  rewrite beats_try_block, (guarded_block_sent_beats w retryCount Hsent), Hhttp,
    (handle_response_failure w retryCount res Hok), Hretry, andb_true_r.
  destruct (retryCount <? CONFIG.CACHE.MAX_RETRIES)%nat; reflexivity.
Qed.

(** C6: when every attempt receives a retryable status, the fetch makes
    the first attempt and MAX_RETRIES = 3 retries, four requests in all,
    sleeps 1000 ms before the first retry, 2000 ms before the second and
    4000 ms before the third, in this order (request, sleep, request,
    sleep, request, sleep, request), and then returns [null] without
    throwing. *)
Theorem retries_with_backoff :
  forall (w : World),
    key_configured w = true ->
    is_build_phase (env w) = false ->
    (forall n, (n <= CONFIG.CACHE.MAX_RETRIES)%nat ->
               request_sent w n = true
               /\ exists res, http (attempts w n) = Ok res
                              /\ includes retryable_statuses (res_status res) = true) ->
    outcome (fetchLicenseFromServerInternal w 0) = Ok None
    /\ network_calls (trace (fetchLicenseFromServerInternal w 0)) = 4%nat
    /\ sleeps (trace (fetchLicenseFromServerInternal w 0)) = [1000; 2000; 4000]
    /\ List.length (sleeps (trace (fetchLicenseFromServerInternal w 0)))
       = CONFIG.CACHE.MAX_RETRIES
    /\ beats (trace (fetchLicenseFromServerInternal w 0))
       = [Request; Slept 1000; Request; Slept 2000; Request; Slept 4000; Request].
Proof.
  intros w Hkey Hbuild Hall.
  assert (Hat : forall n, (n <= 3)%nat ->
            outcome (try_block w n) =
              (if (n <? 3)%nat then Ok Delegate else Ok (Return None))
            /\ sleeps (trace (try_block w n)) =
              (if (n <? 3)%nat then [1000 * 2 ^ Z.of_nat n] else [])
            /\ network_calls (trace (try_block w n)) = 1%nat
            /\ beats (trace (try_block w n)) =
              Request :: (if (n <? 3)%nat then [Slept (1000 * 2 ^ Z.of_nat n)] else [])).
  { intros n Hn. destruct (Hall n Hn) as [Hsent [res [Hhttp Hretry]]].
    destruct (try_block_retryable w n res Hsent Hhttp Hretry) as (H1 & H2 & H3).
    repeat split; auto.
    exact (try_block_retryable_beats w n res Hsent Hhttp Hretry). }
  destruct (Hat 0%nat ltac:(lia)) as (O0 & S0 & N0 & B0).
  destruct (Hat 1%nat ltac:(lia)) as (O1 & S1 & N1 & B1).
  destruct (Hat 2%nat ltac:(lia)) as (O2 & S2 & N2 & B2).
  destruct (Hat 3%nat ltac:(lia)) as (O3 & S3 & N3 & B3).
  cbn in O0, O1, O2, O3, S0, S1, S2, S3, B0, B1, B2, B3.
  pose proof (fetchLicenseFromServerInternal_next w 3 Hkey Hbuild) as F3.
  pose proof (fetchLicenseFromServerInternal_next w 2 Hkey Hbuild) as F2.
  pose proof (fetchLicenseFromServerInternal_next w 1 Hkey Hbuild) as F1.
  pose proof (fetchLicenseFromServerInternal_next w 0 Hkey Hbuild) as F0.
  rewrite O3 in F3. rewrite O2 in F2. rewrite O1 in F1. rewrite O0 in F0.
  cbn [Nat.add] in F0, F1, F2.
  rewrite F3 in F2. cbn [trace outcome fst snd] in F2.
  rewrite F2 in F1. cbn [trace outcome fst snd] in F1.
  rewrite F1 in F0. cbn [trace outcome fst snd] in F0.
  rewrite F0. cbn [trace outcome fst snd].
  rewrite !network_calls_app, !sleeps_app, !beats_app,
    S0, S1, S2, S3, N0, N1, N2, N3, B0, B1, B2, B3.
  repeat split.
Qed.

Lemma retries_with_backoff_witness :
  outcome (fetchLicenseFromServerInternal (answering_world 503 (Err "unread")) 0) = Ok None
  /\ network_calls (trace (fetchLicenseFromServerInternal
                             (answering_world 503 (Err "unread")) 0)) = 4%nat
  /\ sleeps (trace (fetchLicenseFromServerInternal
                      (answering_world 503 (Err "unread")) 0)) = [1000; 2000; 4000]
  /\ List.length (sleeps (trace (fetchLicenseFromServerInternal
                                   (answering_world 503 (Err "unread")) 0)))
     = CONFIG.CACHE.MAX_RETRIES
  /\ beats (trace (fetchLicenseFromServerInternal
                     (answering_world 503 (Err "unread")) 0))
     = [Request; Slept 1000; Request; Slept 2000; Request; Slept 4000; Request].
Proof.
  apply (retries_with_backoff (answering_world 503 (Err "unread"))).
  - reflexivity.
  - reflexivity.
  - intros n _. split; [reflexivity |].
    exists (mkResponse 503 (Err "unread")). split; reflexivity.
Defined.

(** *** Statuses that are not retried *)

Lemma handle_response_not_retried w retryCount res :
  includes retryable_statuses (res_status res) = false ->
  outcome (handle_response w retryCount res) <> Ok Delegate
  /\ sleeps (trace (handle_response w retryCount res)) = [].
Proof.
  intros Hno. unfold handle_response. destruct (res_ok res).
  - destruct (res_json res) as [json | name]; [| split; [discriminate | reflexivity]].
    cbn. destruct json; cbn; try (split; [discriminate | reflexivity]);
      destruct (validateLicenseDetails _ _);
      split; try discriminate; reflexivity.
  - rewrite Hno, andb_false_r. cbn. split; [discriminate | reflexivity].
Qed.

(** C7: a response whose status is outside {429, 502, 503, 504} is not
    retried: the call sends exactly one request and sleeps for no retry;
    when the status is outside 2xx as well (400 for instance) the call
    returns [null]. *)
Theorem no_retry_outside_retryable :
  forall (w : World) (retryCount : nat) (res : Response),
    key_configured w = true ->
    is_build_phase (env w) = false ->
    request_sent w retryCount = true ->
    http (attempts w retryCount) = Ok res ->
    includes retryable_statuses (res_status res) = false ->
    network_calls (trace (fetchLicenseFromServerInternal w retryCount)) = 1%nat
    /\ sleeps (trace (fetchLicenseFromServerInternal w retryCount)) = []
    /\ (res_ok res = false ->
        outcome (fetchLicenseFromServerInternal w retryCount) = Ok None).
Proof.
  intros w retryCount res Hkey Hbuild Hsent Hhttp Hno.
  destruct (handle_response_not_retried w retryCount res Hno) as [Hnd Hsl].
  pose proof (guarded_block_sent_outcome w retryCount Hsent) as Hout.
  pose proof (guarded_block_sent_sleeps w retryCount Hsent) as Hgs.
  pose proof (guarded_block_sent_network_calls w retryCount Hsent) as Hnet.
  rewrite Hhttp in Hout, Hgs. rewrite Hsl in Hgs.
  rewrite <- network_calls_try_block in Hnet.
  rewrite <- sleeps_try_block in Hgs.
  rewrite (fetchLicenseFromServerInternal_next w retryCount Hkey Hbuild).
  destruct (outcome (guarded_block w retryCount)) as [c | e] eqn:Hg.
  - rewrite (try_block_of_guarded_Ok w retryCount c Hg) in *.
    cbn [trace outcome fst snd] in *.
    destruct c as [v |]; [| exfalso; apply Hnd; symmetry; exact Hout].
    cbn [trace outcome fst snd]. repeat split; auto.
    intros Hok. rewrite (handle_response_failure w retryCount res Hok), Hno,
      andb_false_r in Hout. cbn in Hout. congruence.
  - rewrite (try_block_of_guarded_Err w retryCount e Hg) in *.
    cbn [trace outcome fst snd] in *. repeat split; auto.
Qed.

Lemma no_retry_outside_retryable_witness :
  network_calls (trace (fetchLicenseFromServerInternal
                          (answering_world 400 (Err "unread")) 0)) = 1%nat
  /\ sleeps (trace (fetchLicenseFromServerInternal
                      (answering_world 400 (Err "unread")) 0)) = []
  /\ (res_ok (mkResponse 400 (Err "unread")) = false ->
      outcome (fetchLicenseFromServerInternal
                 (answering_world 400 (Err "unread")) 0) = Ok None).
Proof.
  apply (no_retry_outside_retryable (answering_world 400 (Err "unread")) 0
           (mkResponse 400 (Err "unread"))); reflexivity.
Defined.

(** *** A 2xx response whose body fails validation *)

(** C4, as the code has it: when a 2xx body fails schema validation, the
    ZodError is caught by the [catch] clause, logged at error level, and
    the fetch returns [null]; it sends one request and does not retry. *)
Theorem schema_failure_returns_null :
  forall (w : World) (retryCount : nat) (res : Response)
         (responseJson data : jsvalue) (issues : list ZodIssue),
    key_configured w = true ->
    is_build_phase (env w) = false ->
    request_sent w retryCount = true ->
    http (attempts w retryCount) = Ok res ->
    res_ok res = true ->
    res_json res = Ok responseJson ->
    get_data responseJson = ([], Ok data) ->
    validateLicenseDetails (zod_number_ok w) data = Err issues ->
    outcome (fetchLicenseFromServerInternal w retryCount) = Ok None
    /\ outcome (guarded_block w retryCount) = Err (ZodError issues)
    /\ List.last (trace (fetchLicenseFromServerInternal w retryCount)) EvClearTimeout
       = EvLogError "Error while fetching license from server"
    /\ network_calls (trace (fetchLicenseFromServerInternal w retryCount)) = 1%nat
    /\ sleeps (trace (fetchLicenseFromServerInternal w retryCount)) = [].
Proof.
  intros w retryCount res responseJson data issues
         Hkey Hbuild Hsent Hhttp Hok Hjson Hdata Hval.
  assert (Hh : handle_response w retryCount res = ([], Err (ZodError issues))).
  { unfold handle_response. rewrite Hok, Hjson. cbn. rewrite Hdata. cbn.
    rewrite Hval. reflexivity. }
  pose proof (guarded_block_sent_outcome w retryCount Hsent) as Hout.
  pose proof (guarded_block_sent_sleeps w retryCount Hsent) as Hgs.
  pose proof (guarded_block_sent_network_calls w retryCount Hsent) as Hnet.
  rewrite Hhttp, Hh in Hout, Hgs. cbn in Hout, Hgs.
  rewrite <- network_calls_try_block in Hnet.
  rewrite <- sleeps_try_block in Hgs.
  rewrite (fetchLicenseFromServerInternal_next w retryCount Hkey Hbuild).
  rewrite (try_block_of_guarded_Err w retryCount _ Hout) in *.
  cbn [trace outcome fst snd] in *.
  repeat split; auto.
  apply last_last.
Qed.

Lemma schema_failure_returns_null_witness :
  outcome (fetchLicenseFromServerInternal (answering_world 200 (Ok malformed_body)) 0)
  = Ok None
  /\ outcome (guarded_block (answering_world 200 (Ok malformed_body)) 0)
     = Err (ZodError [mkIssue invalid_enum_value ["status"]])
  /\ List.last (trace (fetchLicenseFromServerInternal
                         (answering_world 200 (Ok malformed_body)) 0)) EvClearTimeout
     = EvLogError "Error while fetching license from server"
  /\ network_calls (trace (fetchLicenseFromServerInternal
                             (answering_world 200 (Ok malformed_body)) 0)) = 1%nat
  /\ sleeps (trace (fetchLicenseFromServerInternal
                      (answering_world 200 (Ok malformed_body)) 0)) = [].
Proof.
  apply (schema_failure_returns_null
           (answering_world 200 (Ok malformed_body)) 0
           (mkResponse 200 (Ok malformed_body)) malformed_body malformed_data
           [mkIssue invalid_enum_value ["status"]]);
    reflexivity.
Defined.

(** C4 as stated fails: the body fails validation, yet the caller gets
    [null] and no ZodError. *)
Lemma schema_failure_not_propagated :
  res_ok (mkResponse 200 (Ok malformed_body)) = true
  /\ validateLicenseDetails zod3_number_ok malformed_data
     = Err [mkIssue invalid_enum_value ["status"]]
  /\ outcome (fetchLicenseFromServerInternal
                (answering_world 200 (Ok malformed_body)) 0) = Ok None
  /\ ~ (exists issues,
          outcome (fetchLicenseFromServerInternal
                     (answering_world 200 (Ok malformed_body)) 0)
          = Err (ZodError issues)).
Proof.
  repeat split.
  intros [issues H]. vm_compute in H. discriminate H.
Qed.

(** *** Operational failures *)

Lemma await_Ok_inv {A} (r : result string A) t a :
  await r = (t, Ok a) -> r = Ok a.
Proof. destruct r; cbn; intros H; inversion H; reflexivity. Qed.

(** When the block completes, either it returns [null] or a response was
    received and the completion is the one of [handle_response]. *)
Lemma guarded_block_response w retryCount t c :
  guarded_block w retryCount = (t, Ok c) ->
  c = Return None
  \/ exists res t',
       http (attempts w retryCount) = Ok res
       /\ handle_response w retryCount res = (t', Ok c).
Proof.
  unfold guarded_block. intros H.
  apply bind_outcome_Ok in H. destruct H as (? & ? & ? & _ & H & _).
  apply bind_outcome_Ok in H. destruct H as (? & ? & ? & _ & H & _).
  destruct (negb _ && negb _); [left; inversion H; reflexivity |].
  apply bind_outcome_Ok in H. destruct H as (? & ? & ? & _ & H & _).
  apply bind_outcome_Ok in H. destruct H as (? & ? & ? & _ & H & _).
  apply bind_outcome_Ok in H. destruct H as (? & ? & ? & _ & H & _).
  apply bind_outcome_Ok in H. destruct H as (? & res & ? & Hhttp & H & _).
  apply bind_outcome_Ok in H. destruct H as (? & ? & t' & _ & H & _).
  apply await_Ok_inv in Hhttp. right. exists res, t'. auto.
Qed.

(** The block returns license details only from a 2xx response. *)
Lemma guarded_block_details w retryCount t d :
  guarded_block w retryCount = (t, Ok (Return (Some d))) ->
  exists res, http (attempts w retryCount) = Ok res /\ res_ok res = true.
Proof.
  intros H. apply guarded_block_response in H.
  destruct H as [H | (res & t' & Hhttp & H)]; [discriminate H |].
  exists res. split; [exact Hhttp |].
  destruct (res_ok res) eqn:Hok; [reflexivity |].
  rewrite (handle_response_failure w retryCount res Hok) in H.
  destruct (_ && _); discriminate H.
Qed.

(** A request that fails at the network level, or is aborted by the
    timeout, ends the call with [null]: it is not retried. *)
Lemma network_failure_gives_null w retryCount name :
  http (attempts w retryCount) = Err name ->
  outcome (fetchLicenseFromServerInternal w retryCount) = Ok None.
Proof.
  intros Hhttp.
  destruct (key_configured w) eqn:Hkey;
    [| rewrite fetchLicenseFromServerInternal_no_key by exact Hkey; reflexivity].
  destruct (is_build_phase (env w)) eqn:Hbuild;
    [rewrite fetchLicenseFromServerInternal_build_phase by exact Hbuild; reflexivity |].
  rewrite (fetchLicenseFromServerInternal_next w retryCount Hkey Hbuild).
  destruct (outcome (guarded_block w retryCount)) as [c | e] eqn:Ho.
  - rewrite (try_block_of_guarded_Ok w retryCount c Ho). cbn [outcome snd].
    assert (Hc : c = Return None).
    { destruct (guarded_block_response w retryCount
                  (trace (guarded_block w retryCount)) c) as [H | (res & _ & H & _)].
      - rewrite (M_eta (guarded_block w retryCount)), Ho. reflexivity.
      - exact H.
      - rewrite Hhttp in H. discriminate H. }
    subst c. reflexivity.
  - rewrite (try_block_of_guarded_Err w retryCount e Ho). reflexivity.
Qed.

Lemma try_block_details w retryCount t d :
  try_block w retryCount = (t, Ok (Return (Some d))) ->
  exists res, http (attempts w retryCount) = Ok res /\ res_ok res = true.
Proof.
  intros H.
  destruct (outcome (guarded_block w retryCount)) as [c | e] eqn:Ho.
  - rewrite (try_block_of_guarded_Ok w retryCount c Ho) in H.
    inversion H; subst.
    eapply guarded_block_details. rewrite (M_eta (guarded_block w retryCount)).
    rewrite Ho. reflexivity.
  - rewrite (try_block_of_guarded_Err w retryCount e Ho) in H. inversion H.
Qed.

Lemma operational_failures_give_null w retryCount :
  (forall n, (retryCount <= n)%nat -> operational_failure (attempts w n) = true) ->
  outcome (fetchLicenseFromServerInternal w retryCount) = Ok None.
Proof.
  funelim (fetchLicenseFromServerInternal w retryCount); intros Hfail.
  - reflexivity.
  - reflexivity.
  - destruct v as [d |]; [| reflexivity].
    destruct (try_block_details w retryCount t d e) as [res [Hhttp Hok]].
    specialize (Hfail retryCount (le_n _)). unfold operational_failure in Hfail.
    rewrite Hhttp, Hok in Hfail. discriminate Hfail.
  - cbn. apply H. intros n Hn. apply Hfail. lia.
  - destruct (try_block_returns w retryCount) as [c Hc].
    rewrite e in Hc. discriminate Hc.
Qed.

(** C9: the fetch never throws: every call returns a value. No
    [LicenseApiError] leaves the guarded block, so the rethrowing branch of
    the [catch] clause is never taken. A request that fails at the network
    level or is aborted by the timeout gives [null]; and when every request
    fails (network error, abort by the timeout, or a status outside 2xx)
    the value is [null]. *)
Theorem fetch_never_throws :
  forall (w : World) (retryCount : nat),
    (exists v, outcome (fetchLicenseFromServerInternal w retryCount) = Ok v)
    /\ (forall status,
          outcome (guarded_block w retryCount) <> Err (LicenseApiError status))
    /\ (forall name,
          http (attempts w retryCount) = Err name ->
          outcome (fetchLicenseFromServerInternal w retryCount) = Ok None)
    /\ ((forall n, (retryCount <= n)%nat ->
                   operational_failure (attempts w n) = true) ->
        outcome (fetchLicenseFromServerInternal w retryCount) = Ok None).
Proof.
  intros w retryCount. split; [| split; [| split]].
  - apply fetchLicenseFromServerInternal_returns.
  - intros status H. apply api_error_free_guarded_block in H. discriminate H.
  - apply network_failure_gives_null.
  - apply operational_failures_give_null.
Qed.

Lemma fetch_never_throws_witness :
  outcome (fetchLicenseFromServerInternal
             (unreachable_world (Some "license-key") empty_store) 0) = Ok None.
Proof.
  apply (proj2 (proj2 (proj2 (fetch_never_throws
                                (unreachable_world (Some "license-key") empty_store) 0)))).
  intros n _. reflexivity.
Defined.

(** ** Single flight *)

Lemma length_set_cell table p c :
  List.length (set_cell table p c) = List.length table.
Proof.
  revert p. induction table as [| x rest IH]; intros [| q]; cbn; auto.
Qed.

Lemma nth_error_set_cell_eq table p c x :
  nth_error table p = Some x -> nth_error (set_cell table p c) p = Some c.
Proof.
  revert p. induction table as [| y rest IH]; intros [| q]; cbn;
    try discriminate; auto.
Qed.

Lemma nth_error_set_cell_ne table p q c :
  p <> q -> nth_error (set_cell table p c) q = nth_error table q.
Proof.
  revert p q. induction table as [| y rest IH]; intros [| p] [| q] H; cbn;
    try reflexivity; try congruence.
  apply IH. congruence.
Qed.

Lemma settle_inv p r st st' :
  settle p r st = Some st' ->
  exists ran,
    nth_error (promise_table st) p = Some (mkCell None ran)
    /\ st' = mkState (fetchLicensePromise st)
                     (set_cell (promise_table st) p (mkCell (Some r) ran))
                     (withCache_calls st).
Proof.
  unfold settle.
  destruct (nth_error (promise_table st) p) as [[[s |] ran] |] eqn:Hn;
    try discriminate.
  intros H. inversion H. exists ran. auto.
Qed.

Lemma run_finally_inv p st st' :
  run_finally p st = Some st' ->
  exists r,
    nth_error (promise_table st) p = Some (mkCell (Some r) false)
    /\ st' = mkState None
                     (set_cell (promise_table st) p (mkCell (Some r) true))
                     (withCache_calls st).
Proof.
  unfold run_finally.
  destruct (nth_error (promise_table st) p) as [[[s |] [|]] |] eqn:Hn;
    try discriminate.
  intros H. inversion H. exists s. auto.
Qed.

Lemma fetchLicense_cases w st :
  fetchLicense w st = (st, ResolvedNull)
  \/ (exists p, fetchLicensePromise st = Some p
                /\ fetchLicense w st = (st, SharedPromise p))
  \/ (fetchLicensePromise st = None
      /\ fetchLicense w st =
         (mkState (Some (List.length (promise_table st)))
                  (promise_table st ++ [mkCell None false])
                  (withCache_calls st ++
                     [(FETCH_LICENSE_CACHE_KEY (getCacheKeys w),
                       CONFIG.CACHE.FETCH_LICENSE_TTL_MS)]),
          SharedPromise (List.length (promise_table st)))).
Proof.
  unfold fetchLicense.
  destruct (negb _); [left; reflexivity |].
  destruct (is_build_phase _); [left; reflexivity |].
  destruct (fetchLicensePromise st) as [p |] eqn:Hs.
  - right. left. exists p. auto.
  - right. right. auto.
Qed.

Lemma flight_inv_initial : flight_inv initial_state.
Proof.
  unfold flight_inv, initial_state; cbn. repeat split.
  - intros [| p] c H; discriminate H.
  - intros p H; discriminate H.
  - intros [| p] c H; discriminate H.
Qed.

Lemma flight_inv_fetchLicense w st :
  flight_inv st -> flight_inv (fst (fetchLicense w st)).
Proof.
  intros Hinv.
  destruct (fetchLicense_cases w st) as [H | [[p [_ H]] | [Hs H]]];
    rewrite H; cbn [fst]; try exact Hinv.
  destruct Hinv as (I1 & I2 & I3 & I4).
  unfold flight_inv; cbn. repeat split.
  - intros q c Hq Hne.
    destruct (Nat.lt_ge_cases q (List.length (promise_table st))) as [Hlt | Hge].
    + rewrite nth_error_app1 in Hq by exact Hlt.
      apply (I1 q c Hq). rewrite Hs. discriminate.
    + rewrite nth_error_app2 in Hq by exact Hge.
      destruct (q - List.length (promise_table st))%nat as [| k] eqn:Hk.
      * exfalso. apply Hne. f_equal. lia.
      * cbn in Hq. destruct k; discriminate Hq.
  - intros q Hq. inversion Hq; subst. exists (mkCell None false).
    rewrite nth_error_app2, Nat.sub_diag by lia. auto.
  - intros q c Hq Hran.
    destruct (Nat.lt_ge_cases q (List.length (promise_table st))) as [Hlt | Hge].
    + rewrite nth_error_app1 in Hq by exact Hlt. exact (I3 q c Hq Hran).
    + rewrite nth_error_app2 in Hq by exact Hge.
      destruct (q - List.length (promise_table st))%nat as [| [| k]];
        cbn in Hq; inversion Hq; subst; discriminate Hran.
  - rewrite !length_app. cbn. lia.
Qed.

Lemma flight_inv_settle p r st st' :
  flight_inv st -> settle p r st = Some st' -> flight_inv st'.
Proof.
  intros (I1 & I2 & I3 & I4) H.
  apply settle_inv in H. destruct H as (ran & Hp & ->).
  unfold flight_inv; cbn. repeat split.
  - intros q c Hq Hne. destruct (Nat.eq_dec p q) as [<- | Hpq].
    + rewrite (nth_error_set_cell_eq _ _ _ _ Hp) in Hq. inversion Hq; subst.
      cbn. exact (I1 p _ Hp Hne).
    + rewrite nth_error_set_cell_ne in Hq by exact Hpq. exact (I1 q c Hq Hne).
  - intros q Hq. destruct (Nat.eq_dec p q) as [<- | Hpq].
    + destruct (I2 p Hq) as (c & Hc & Hran). rewrite Hp in Hc.
      inversion Hc; subst. cbn in Hran. subst ran.
      exists (mkCell (Some r) false).
      rewrite (nth_error_set_cell_eq _ _ _ _ Hp). auto.
    + destruct (I2 q Hq) as (c & Hc & Hran). exists c.
      rewrite nth_error_set_cell_ne by exact Hpq. auto.
  - intros q c Hq Hran. destruct (Nat.eq_dec p q) as [<- | Hpq].
    + rewrite (nth_error_set_cell_eq _ _ _ _ Hp) in Hq. inversion Hq; subst.
      cbn. discriminate.
    + rewrite nth_error_set_cell_ne in Hq by exact Hpq. exact (I3 q c Hq Hran).
  - rewrite length_set_cell. exact I4.
Qed.

(** The callback of [p] can only be due while [p] is the promise in the
    variable. *)
Lemma finally_due_is_current p st st' :
  flight_inv st -> run_finally p st = Some st' -> fetchLicensePromise st = Some p.
Proof.
  intros (I1 & _) H. apply run_finally_inv in H. destruct H as (r & Hp & _).
  destruct (fetchLicensePromise st) as [q |] eqn:Hs.
  - destruct (Nat.eq_dec q p) as [-> | Hne]; [reflexivity |].
    assert (Hran : finally_ran (mkCell (Some r) false) = true).
    { apply (I1 p _ Hp). congruence. }
    discriminate Hran.
  - assert (Hran : finally_ran (mkCell (Some r) false) = true).
    { apply (I1 p _ Hp). discriminate. }
    discriminate Hran.
Qed.

Lemma flight_inv_run_finally p st st' :
  flight_inv st -> run_finally p st = Some st' -> flight_inv st'.
Proof.
  intros Hinv H. pose proof (finally_due_is_current p st st' Hinv H) as Hcur.
  destruct Hinv as (I1 & I2 & I3 & I4).
  apply run_finally_inv in H. destruct H as (r & Hp & ->).
  unfold flight_inv; cbn. repeat split.
  - intros q c Hq _. destruct (Nat.eq_dec p q) as [<- | Hpq].
    + rewrite (nth_error_set_cell_eq _ _ _ _ Hp) in Hq. inversion Hq; reflexivity.
    + rewrite nth_error_set_cell_ne in Hq by exact Hpq.
      apply (I1 q c Hq). rewrite Hcur. congruence.
  - intros q Hq. discriminate Hq.
  - intros q c Hq Hran. destruct (Nat.eq_dec p q) as [<- | Hpq].
    + rewrite (nth_error_set_cell_eq _ _ _ _ Hp) in Hq. inversion Hq; subst.
      cbn. discriminate.
    + rewrite nth_error_set_cell_ne in Hq by exact Hpq. exact (I3 q c Hq Hran).
  - rewrite length_set_cell. exact I4.
Qed.

Lemma flight_inv_step w st j st' rs :
  flight_inv st -> step w st j = Some (st', rs) -> flight_inv st'.
Proof.
  intros Hinv. destruct j as [| p r | p]; cbn.
  - pose proof (flight_inv_fetchLicense w st Hinv) as H.
    destruct (fetchLicense w st) as [st1 r1]. intros E. inversion E; subst.
    exact H.
  - destruct (settle p r st) as [st1 |] eqn:Hs; [| discriminate].
    intros E. inversion E; subst. exact (flight_inv_settle p r st st' Hinv Hs).
  - destruct (run_finally p st) as [st1 |] eqn:Hs; [| discriminate].
    intros E. inversion E; subst. exact (flight_inv_run_finally p st st' Hinv Hs).
Qed.

Lemma flight_inv_run w jobs :
  forall st st' rs,
    flight_inv st -> run w st jobs = Some (st', rs) -> flight_inv st'.
Proof.
  induction jobs as [| j rest IH]; intros st st' rs Hinv; cbn.
  - intros E. inversion E; subst. exact Hinv.
  - destruct (step w st j) as [[st1 rs1] |] eqn:Hstep; [| discriminate].
    destruct (run w st1 rest) as [[st2 rs2] |] eqn:Hrun; [| discriminate].
    intros E. inversion E; subst.
    exact (IH st1 st' rs2 (flight_inv_step w st j st1 rs1 Hinv Hstep) Hrun).
Qed.

Lemma reachable_flight_inv w st : reachable w st -> flight_inv st.
Proof.
  intros (jobs & rs & H).
  exact (flight_inv_run w jobs initial_state st rs flight_inv_initial H).
Qed.

(** At most one promise is outstanding, and it is the one in the variable. *)
Lemma outstanding_is_current st p c :
  flight_inv st ->
  nth_error (promise_table st) p = Some c ->
  settlement c = None ->
  fetchLicensePromise st = Some p.
Proof.
  intros (I1 & _ & I3 & _) Hp Hnone.
  destruct (fetchLicensePromise st) as [q |] eqn:Hs.
  - destruct (Nat.eq_dec q p) as [-> | Hne]; [reflexivity |].
    exfalso. apply (I3 p c Hp); [| exact Hnone].
    apply (I1 p c Hp). congruence.
  - exfalso. apply (I3 p c Hp); [| exact Hnone].
    apply (I1 p c Hp). discriminate.
Qed.

Lemma fetchLicense_join w st p :
  key_configured w = true ->
  is_build_phase (env w) = false ->
  fetchLicensePromise st = Some p ->
  fetchLicense w st = (st, SharedPromise p).
Proof.
  unfold key_configured, fetchLicense. intros -> -> ->. reflexivity.
Qed.

Lemma fetchLicense_start w st :
  key_configured w = true ->
  is_build_phase (env w) = false ->
  fetchLicensePromise st = None ->
  fetchLicense w st =
  (mkState (Some (List.length (promise_table st)))
           (promise_table st ++ [mkCell None false])
           (withCache_calls st ++
              [(FETCH_LICENSE_CACHE_KEY (getCacheKeys w),
                CONFIG.CACHE.FETCH_LICENSE_TTL_MS)]),
   SharedPromise (List.length (promise_table st))).
Proof.
  unfold key_configured, fetchLicense. intros -> -> ->. reflexivity.
Qed.

(** While a promise is in the variable and its callback does not run,
    calls and settlements leave the variable and the producer invocations
    as they are, and every call gets that promise. *)
Lemma run_joined w jobs :
  key_configured w = true ->
  is_build_phase (env w) = false ->
  forall st st' rs p,
    fetchLicensePromise st = Some p ->
    forallb (fun j => negb (is_finally j)) jobs = true ->
    run w st jobs = Some (st', rs) ->
    fetchLicensePromise st' = Some p
    /\ withCache_calls st' = withCache_calls st
    /\ Forall (fun r => r = SharedPromise p) rs.
Proof.
  intros Hkey Hbuild.
  induction jobs as [| j rest IH]; intros st st' rs p Hslot Hnf; cbn.
  - intros E. inversion E; subst. auto.
  - cbn in Hnf. apply andb_prop in Hnf. destruct Hnf as [Hj Hnf].
    destruct j as [| q r | q]; cbn in Hj; [| | discriminate Hj]; cbn.
    + rewrite (fetchLicense_join w st p Hkey Hbuild Hslot).
      destruct (run w st rest) as [[st2 rs2] |] eqn:Hrun; [| discriminate].
      intros E. inversion E; subst.
      destruct (IH st st' rs2 p Hslot Hnf Hrun) as (H1 & H2 & H3).
      repeat split; auto.
    + destruct (settle q r st) as [st1 |] eqn:Hs; [| discriminate].
      destruct (run w st1 rest) as [[st2 rs2] |] eqn:Hrun; [| discriminate].
      intros E. inversion E; subst.
      apply settle_inv in Hs. destruct Hs as (ran & _ & ->).
      specialize (fun H => IH _ st' rs p H Hnf Hrun).
      destruct (IH Hslot) as (H1 & H2 & H3).
      repeat split; auto.
Qed.

(** From a state with nothing in flight, any number of calls (at least
    one), with the settlement of the promise possibly between them and no
    callback run yet, start exactly one producer, and every call gets the
    promise of that producer. *)
Lemma run_fresh w jobs st st' rs :
  key_configured w = true ->
  is_build_phase (env w) = false ->
  flight_inv st ->
  fetchLicensePromise st = None ->
  forallb (fun j => negb (is_finally j)) jobs = true ->
  existsb is_call jobs = true ->
  run w st jobs = Some (st', rs) ->
  fetchLicensePromise st' = Some (List.length (promise_table st))
  /\ List.length (withCache_calls st') = S (List.length (withCache_calls st))
  /\ Forall (fun r => r = SharedPromise (List.length (promise_table st))) rs.
Proof.
  intros Hkey Hbuild Hinv Hslot Hnf Hcall.
  destruct jobs as [| j rest]; [discriminate Hcall |].
  cbn in Hnf. apply andb_prop in Hnf. destruct Hnf as [Hj Hnf].
  destruct j as [| q r | q]; cbn in Hj; [| | discriminate Hj]; cbn.
  - rewrite (fetchLicense_start w st Hkey Hbuild Hslot).
    destruct (run w _ rest) as [[st2 rs2] |] eqn:Hrun; [| discriminate].
    intros E. inversion E; subst.
    pose proof (fun H => run_joined w rest Hkey Hbuild _ st' rs2
                                    (List.length (promise_table st)) H Hnf Hrun)
      as Hjoin.
    destruct (Hjoin eq_refl) as (H1 & H2 & H3).
    cbn in H2. rewrite H2, length_app. cbn.
    repeat split; auto. lia.
  - destruct (settle q r st) as [st1 |] eqn:Hs; [| discriminate].
    apply settle_inv in Hs. destruct Hs as (ran & Hq & _).
    pose proof (outstanding_is_current st q _ Hinv Hq eq_refl) as Hcur.
    rewrite Hslot in Hcur. discriminate Hcur.
Qed.

(** A promise that settled keeps its result. *)
Lemma settled_is_stable w st j st1 rs1 p s :
  step w st j = Some (st1, rs1) ->
  eventual_result st (SharedPromise p) = Some s ->
  eventual_result st1 (SharedPromise p) = Some s.
Proof.
  cbn. destruct (nth_error (promise_table st) p) as [c |] eqn:Hp; [| discriminate].
  intros Hstep Hs. destruct j as [| q r | q]; cbn in Hstep.
  - destruct (fetchLicense_cases w st) as [H | [[p' [_ H]] | [_ H]]];
      rewrite H in Hstep; inversion Hstep; subst; cbn; rewrite ?Hp; auto.
    rewrite nth_error_app1, Hp; [exact Hs |].
    apply nth_error_Some. rewrite Hp. discriminate.
  - destruct (settle q r st) as [st2 |] eqn:Hq; [| discriminate].
    inversion Hstep; subst. apply settle_inv in Hq.
    destruct Hq as (ran & Hq & ->). cbn.
    destruct (Nat.eq_dec q p) as [-> | Hne].
    + rewrite Hp in Hq. inversion Hq; subst. discriminate Hs.
    + rewrite nth_error_set_cell_ne, Hp by exact Hne. exact Hs.
  - destruct (run_finally q st) as [st2 |] eqn:Hq; [| discriminate].
    inversion Hstep; subst. apply run_finally_inv in Hq.
    destruct Hq as (r & Hq & ->). cbn.
    destruct (Nat.eq_dec q p) as [-> | Hne].
    + rewrite (nth_error_set_cell_eq _ _ _ _ Hq). rewrite Hp in Hq.
      inversion Hq; subst. exact Hs.
    + rewrite nth_error_set_cell_ne, Hp by exact Hne. exact Hs.
Qed.

(** The promise in the variable can always move on: it can settle, or it
    has settled and its callback is due. *)
Lemma current_promise_progress st p :
  flight_inv st ->
  fetchLicensePromise st = Some p ->
  (forall r, exists st1, settle p r st = Some st1)
  \/ (exists st1, run_finally p st = Some st1).
Proof.
  intros (_ & I2 & _) Hslot. destruct (I2 p Hslot) as (c & Hc & Hran).
  destruct c as [[s |] ran]; cbn in Hran; subst ran.
  - right. unfold run_finally. rewrite Hc. eexists. reflexivity.
  - left. intros r. unfold settle. rewrite Hc. eexists. reflexivity.
Qed.

(** Once a promise has settled, with a value or an error, its [finally]
    callback is due, and running it empties the variable. *)
Lemma settled_then_cleared st p r st1 :
  flight_inv st ->
  settle p r st = Some st1 ->
  fetchLicensePromise st = Some p
  /\ run_finally p st1
     = Some (mkState None
                     (set_cell (promise_table st1) p (mkCell (Some r) true))
                     (withCache_calls st)).
Proof.
  intros Hinv Hs. apply settle_inv in Hs. destruct Hs as (ran & Hp & ->).
  pose proof (outstanding_is_current st p _ Hinv Hp eq_refl) as Hcur.
  destruct Hinv as (_ & I2 & _). destruct (I2 p Hcur) as (c & Hc & Hran).
  rewrite Hp in Hc. inversion Hc; subst c. cbn in Hran. subst ran.
  split; [exact Hcur |].
  unfold run_finally. cbn [promise_table withCache_calls].
  rewrite (nth_error_set_cell_eq _ _ _ _ Hp). reflexivity.
Qed.

(** C5, as the code has it. With a key configured and outside the build
    phase, in every state the module can reach: at most one promise is
    outstanding and it is the one in [fetchLicensePromise]; a call made
    while that variable holds a promise returns this promise and starts no
    producer; from an empty variable, any N >= 1 calls made before the
    [finally] callback runs start exactly one producer (one
    [cache.withCache] invocation) and all hold the same promise, hence read
    the same result; when the callback runs, after success or failure, the
    variable is cleared and the next call starts a new producer; a settled
    result does not change. The promise in the variable can always settle
    or, once settled, have its callback run; and when the producer
    completes, with a value or an error, the callback is due, running it
    empties the variable, and the call after that starts a new producer
    with a new promise. [getEnterpriseLicense] itself performs no effect,
    so it makes no network call. *)
Theorem single_flight :
  forall (w : World) (st : ModuleState),
    key_configured w = true ->
    is_build_phase (env w) = false ->
    reachable w st ->
    (forall p c, nth_error (promise_table st) p = Some c ->
                 settlement c = None -> fetchLicensePromise st = Some p)
    /\ (forall p, fetchLicensePromise st = Some p ->
                  fetchLicense w st = (st, SharedPromise p))
    /\ (fetchLicensePromise st = None ->
        forall jobs st' rs,
          forallb (fun j => negb (is_finally j)) jobs = true ->
          existsb is_call jobs = true ->
          run w st jobs = Some (st', rs) ->
          List.length (withCache_calls st') = S (List.length (withCache_calls st))
          /\ Forall (fun r => r = SharedPromise (List.length (promise_table st))) rs
          /\ (forall st'' r1 r2, In r1 rs -> In r2 rs ->
                eventual_result st'' r1 = eventual_result st'' r2))
    /\ (forall p st1,
          run_finally p st = Some st1 ->
          fetchLicensePromise st = Some p
          /\ fetchLicensePromise st1 = None
          /\ exists st2 q,
               fetchLicense w st1 = (st2, SharedPromise q)
               /\ q <> p
               /\ fetchLicensePromise st2 = Some q
               /\ List.length (withCache_calls st2)
                  = S (List.length (withCache_calls st1)))
    /\ (forall j st1 rs1 p s,
          step w st j = Some (st1, rs1) ->
          eventual_result st (SharedPromise p) = Some s ->
          eventual_result st1 (SharedPromise p) = Some s)
    /\ (forall now, trace (fst (getEnterpriseLicense w None now)) = [])
    /\ (forall p, fetchLicensePromise st = Some p ->
                  (forall r, exists st1, settle p r st = Some st1)
                  \/ (exists st1, run_finally p st = Some st1))
    /\ (forall p r st1,
          settle p r st = Some st1 ->
          fetchLicensePromise st1 = Some p
          /\ exists st2,
               run_finally p st1 = Some st2
               /\ fetchLicensePromise st2 = None
               /\ exists st3 q,
                    fetchLicense w st2 = (st3, SharedPromise q)
                    /\ q <> p
                    /\ fetchLicensePromise st3 = Some q
                    /\ List.length (withCache_calls st3)
                       = S (List.length (withCache_calls st))).
Proof.
  intros w st Hkey Hbuild Hreach.
  pose proof (reachable_flight_inv w st Hreach) as Hinv.
  split; [| split; [| split; [| split; [| split; [| split; [| split]]]]]].
  - intros p c Hp Hnone. exact (outstanding_is_current st p c Hinv Hp Hnone).
  - intros p Hslot. exact (fetchLicense_join w st p Hkey Hbuild Hslot).
  - intros Hslot jobs st' rs Hnf Hcall Hrun.
    destruct (run_fresh w jobs st st' rs Hkey Hbuild Hinv Hslot Hnf Hcall Hrun)
      as (_ & Hcalls & Hall).
    repeat split; auto.
    intros st'' r1 r2 H1 H2. rewrite Forall_forall in Hall.
    rewrite (Hall r1 H1), (Hall r2 H2). reflexivity.
  - intros p st1 Hfin.
    pose proof (finally_due_is_current p st st1 Hinv Hfin) as Hcur.
    apply run_finally_inv in Hfin. destruct Hfin as (r & Hp & ->).
    repeat split; auto.
    eexists. eexists.
    rewrite fetchLicense_start; [| exact Hkey | exact Hbuild | reflexivity].
    cbn [fetchLicensePromise withCache_calls promise_table]. repeat split.
    + rewrite length_set_cell.
      assert (Hlt : (p < List.length (promise_table st))%nat).
      { apply nth_error_Some. rewrite Hp. discriminate. }
      lia.
    + cbn [withCache_calls]. rewrite length_app. cbn. lia.
  - intros j st1 rs1 p s. apply settled_is_stable.
  - intros now. reflexivity.
  - intros p Hslot. exact (current_promise_progress st p Hinv Hslot).
  - intros p r st1 Hs.
    destruct (settled_then_cleared st p r st1 Hinv Hs) as (Hcur & Hfin).
    assert (Hlt : (p < List.length (promise_table st))%nat).
    { apply settle_inv in Hs. destruct Hs as (ran & Hp & _).
      apply nth_error_Some. rewrite Hp. discriminate. }
    assert (Hlen : List.length (promise_table st1) = List.length (promise_table st)).
    { apply settle_inv in Hs. destruct Hs as (ran & _ & ->). cbn.
      apply length_set_cell. }
    split.
    + apply settle_inv in Hs. destruct Hs as (ran & _ & ->). exact Hcur.
    + eexists. split; [exact Hfin |]. split; [reflexivity |].
      eexists. eexists.
      rewrite fetchLicense_start; [| exact Hkey | exact Hbuild | reflexivity].
      cbn [fetchLicensePromise withCache_calls promise_table]. repeat split.
      * rewrite length_set_cell, Hlen. lia.
      * cbn [withCache_calls]. rewrite length_app. cbn. lia.
Qed.

Lemma single_flight_witness :
  (exists st' rs,
     run (answering_world 200 (Ok valid_body)) initial_state
         [CallFetchLicense; CallFetchLicense; Settle 0 (Ok None); CallFetchLicense]
     = Some (st', rs)
     /\ List.length (withCache_calls st') = 1%nat
     /\ Forall (fun r => r = SharedPromise 0) rs)
  /\ (exists st1,
        settle 0 (Err (ExternalError "cache down"))
               (fst (fetchLicense (answering_world 200 (Ok valid_body)) initial_state))
        = Some st1
        /\ fetchLicensePromise st1 = Some 0%nat
        /\ exists st2,
             run_finally 0 st1 = Some st2
             /\ fetchLicensePromise st2 = None
             /\ exists st3 q,
                  fetchLicense (answering_world 200 (Ok valid_body)) st2
                  = (st3, SharedPromise q)
                  /\ q <> 0%nat
                  /\ fetchLicensePromise st3 = Some q
                  /\ List.length (withCache_calls st3) = 2%nat).
Proof.
  split.
  - eexists. eexists. split; [reflexivity |].
    destruct (single_flight (answering_world 200 (Ok valid_body)) initial_state
                eq_refl eq_refl
                (ex_intro _ [] (ex_intro _ [] eq_refl)))
      as (_ & _ & H & _).
    destruct (H eq_refl
                [CallFetchLicense; CallFetchLicense; Settle 0 (Ok None); CallFetchLicense]
                _ _ eq_refl eq_refl eq_refl) as (H1 & H2 & _).
    split; [exact H1 | exact H2].
  - eexists. split; [reflexivity |].
    destruct (single_flight
                (answering_world 200 (Ok valid_body))
                (fst (fetchLicense (answering_world 200 (Ok valid_body)) initial_state))
                eq_refl eq_refl
                (ex_intro _ [CallFetchLicense] (ex_intro _ _ eq_refl)))
      as (_ & _ & _ & _ & _ & _ & _ & H).
    exact (H 0%nat (Err (ExternalError "cache down")) _ eq_refl).
Defined.

(** C5 as stated fails for the exported entry point: with a key
    configured, a reachable authority and an empty cache, one call of
    [getEnterpriseLicense], or three calls from three requests, cause no
    network call, not one. *)
Lemma resolve_makes_no_network_call :
  key_configured (answering_world 200 (Ok valid_body)) = true
  /\ cache_store (answering_world 200 (Ok valid_body)) = empty_store
  /\ network_calls
       (trace (fst (getEnterpriseLicense (answering_world 200 (Ok valid_body))
                                         None 0))) <> 1%nat
  /\ network_calls
       (List.concat (map (fun now =>
                       trace (fst (getEnterpriseLicense
                                     (answering_world 200 (Ok valid_body)) None now)))
                    [0; 0; 0])) <> 1%nat.
Proof.
  repeat split; cbn; discriminate.
Qed.

(** ** Serializing an outcome and validating it again *)

Lemma JSON_number_kept x : JSON_keeps x = true -> JSON_number x = JNumber x.
Proof.
  unfold JSON_keeps, JSON_number. intros H.
  apply andb_prop in H. destruct H as [Hfinite Hzero].
  apply negb_true_iff in Hfinite. apply negb_true_iff in Hzero.
  rewrite Hfinite, Hzero. reflexivity.
Qed.

Lemma serializeDetailsJSON_kept d :
  match projects (details_features d) with
  | Some x => JSON_keeps x = true
  | None => True
  end ->
  serializeDetailsJSON d = Some (serializeDetails d).
Proof.
  destruct d as [s f]. destruct f. cbn [details_features projects].
  unfold serializeDetailsJSON, serializeDetails, serializeFeatures.
  cbn [details_status details_features isMultiOrgEnabled projects twoFactorAuth
       sso whitelabel removeBranding contacts ai saml spamProtection auditLogs
       multiLanguageSurveys accessControl quotas].
  intros Hp. destruct s; destruct projects0 as [x |];
    cbn [JSON_parse_stringify serializeStatus serializeProjects];
    try rewrite (JSON_number_kept x Hp); reflexivity.
Qed.

(** C10, as the code has it: an outcome the validator produced whose
    [projects] quota is [null] or a number that JSON text keeps (finite and
    not negative zero), written as JSON text, read back and validated
    again, is accepted and is the same outcome. *)
Theorem validateLicenseDetails_json_round_trip :
  forall (number_ok : float -> bool) (raw : jsvalue) (d : TEnterpriseLicenseDetails),
    validateLicenseDetails number_ok raw = Ok d ->
    match projects (details_features d) with
    | Some x => JSON_keeps x = true
    | None => True
    end ->
    exists written,
      serializeDetailsJSON d = Some written
      /\ validateLicenseDetails number_ok written = Ok d.
Proof.
  intros number_ok raw d Hv Hkept.
  exists (serializeDetails d). split.
  - exact (serializeDetailsJSON_kept d Hkept).
  - apply validate_serializeDetails.
    exact (validateLicenseDetails_accepted number_ok raw d Hv).
Qed.

Lemma validateLicenseDetails_json_round_trip_witness :
  exists written,
    serializeDetailsJSON (mkDetails expired_ bounded_features) = Some written
    /\ validateLicenseDetails zod3_number_ok written
       = Ok (mkDetails expired_ bounded_features).
Proof.
  apply (validateLicenseDetails_json_round_trip zod3_number_ok
           (JObject [("status", JString "expired");
                     ("issuedTo", JString "acme");
                     ("features", serializeFeatures bounded_features)])
           (mkDetails expired_ bounded_features)).
  - reflexivity.
  - reflexivity.
Defined.

(** C10 as stated fails: a body whose [projects] is an infinite number (what
    [JSON.parse] makes of 1e999) is accepted by the validator with the
    number check of zod 3; its outcome, written as JSON text, has [projects]
    [null], and validating that gives another outcome. *)
Lemma json_round_trip_loses_infinity :
  validateLicenseDetails zod3_number_ok
    (serializeDetails (mkDetails active_ all_enabled))
  = Ok (mkDetails active_ all_enabled)
  /\ projects all_enabled = Some infinity
  /\ exists written,
       serializeDetailsJSON (mkDetails active_ all_enabled) = Some written
       /\ validateLicenseDetails zod3_number_ok written
          = Ok (mkDetails active_
                          (mkFeatures true None true true true true true true true
                                      true true true true true))
       /\ validateLicenseDetails zod3_number_ok written
          <> Ok (mkDetails active_ all_enabled).
Proof.
  split; [vm_compute; reflexivity |]. split; [reflexivity |].
  eexists. split; [vm_compute; reflexivity |].
  split; [vm_compute; reflexivity |].
  vm_compute. intros H. discriminate H.
Qed.

(** * Further properties *)

(** ** The validator reads its input as it is *)

Lemma z_boolean_Ok_inv path v b : z_boolean path v = Ok b -> v = JBool b.
Proof. destruct v; cbn; intros H; inversion H; reflexivity. Qed.

Lemma z_enum_status_Ok_inv path v s :
  z_enum_status path v = Ok s -> v = serializeStatus s.
Proof.
  destruct v; cbn; try discriminate.
  destruct (String.eqb s0 "active") eqn:Ha.
  - apply String.eqb_eq in Ha. intros H. inversion H; subst. reflexivity.
  - destruct (String.eqb s0 "expired") eqn:He; [| discriminate].
    apply String.eqb_eq in He. intros H. inversion H; subst. reflexivity.
Qed.

Lemma z_nullable_number_Ok_inv number_ok path v p :
  z_nullable (z_number number_ok) path v = Ok p -> v = serializeProjects p.
Proof.
  destruct v; cbn; intros H; inversion H; subst; try reflexivity.
  destruct (number_ok x); cbn in *; inversion H; reflexivity.
Qed.

Lemma LicenseFeaturesSchema_Ok_inv number_ok path v f :
  LicenseFeaturesSchema number_ok path v = Ok f ->
  exists fprops,
    v = JObject fprops
    /\ forall key value, In (key, value) (feature_properties f) ->
                         get_prop fprops key = value.
Proof.
  destruct v; cbn; try discriminate. intros H. exists props. split; [reflexivity |].
  repeat match type of H with
         | _ <*> _ = Ok _ =>
             apply zap_Ok_inv in H;
             let g := fresh "g" in let a := fresh "a" in
             let Hf := fresh "Hf" in let Hx := fresh "Hx" in
             destruct H as (g & a & Hf & Hx & ->); rename Hf into H
         end.
  destruct (field props path "isMultiOrgEnabled" z_boolean) eqn:Hx12;
    inversion H; subst.
  unfold field in *.
  repeat match goal with
         | Hb : z_boolean _ _ = Ok _ |- _ => apply z_boolean_Ok_inv in Hb
         | Hn : z_nullable _ _ _ = Ok _ |- _ => apply z_nullable_number_Ok_inv in Hn
         end.
  intros key value Hin. cbn in Hin.
  repeat (destruct Hin as [Hin | Hin];
          [inversion Hin; subst; assumption |]).
  contradiction.
Qed.

(** X1: an accepted input is an object whose [status] and [features]
    properties are exactly the values of the outcome: nothing is coerced,
    defaulted or invented. *)
Theorem validateLicenseDetails_reads_input :
  forall (number_ok : float -> bool) (raw : jsvalue) (d : TEnterpriseLicenseDetails),
    validateLicenseDetails number_ok raw = Ok d ->
    exists props fprops,
      raw = JObject props
      /\ get_prop props "status" = serializeStatus (details_status d)
      /\ get_prop props "features" = JObject fprops
      /\ (forall key value,
            In (key, value) (feature_properties (details_features d)) ->
            get_prop fprops key = value)
      /\ projects_accepted number_ok (details_features d).
Proof.
  intros number_ok raw d Hv.
  pose proof (validateLicenseDetails_accepted number_ok raw d Hv) as Hacc.
  unfold validateLicenseDetails, LicenseDetailsSchema in Hv.
  destruct raw; try discriminate.
  apply zap_Ok_inv in Hv. destruct Hv as (g & f & H & Hf & ->).
  apply zap_Ok_inv in H. destruct H as (g' & s & H & Hs & ->).
  inversion H; subst. unfold field in *. cbn in Hf, Hs.
  apply z_enum_status_Ok_inv in Hs.
  destruct (LicenseFeaturesSchema_Ok_inv number_ok _ _ f Hf) as (fprops & Hfp & Hall).
  exists props, fprops. cbn. auto.
Qed.

Lemma LicenseFeaturesSchema_ext number_ok path fprops fprops' :
  (forall key, In key feature_keys -> get_prop fprops key = get_prop fprops' key) ->
  LicenseFeaturesSchema number_ok path (JObject fprops)
  = LicenseFeaturesSchema number_ok path (JObject fprops').
Proof.
  intros Hkeys. unfold LicenseFeaturesSchema, field.
  repeat match goal with
         | |- context [get_prop fprops ?k] =>
             rewrite (Hkeys k) by (cbn; tauto)
         end.
  reflexivity.
Qed.

(** X2: validation looks at the schema's keys only: two objects that agree
    on [status] and on the fourteen feature keys are accepted or rejected
    alike, with the same outcome or the same issues, whatever else they
    hold. *)
Theorem validateLicenseDetails_schema_keys_only :
  forall (number_ok : float -> bool)
         (props props' fprops fprops' : list (string * jsvalue)),
    get_prop props "status" = get_prop props' "status" ->
    get_prop props "features" = JObject fprops ->
    get_prop props' "features" = JObject fprops' ->
    (forall key, In key feature_keys -> get_prop fprops key = get_prop fprops' key) ->
    validateLicenseDetails number_ok (JObject props)
    = validateLicenseDetails number_ok (JObject props').
Proof.
  intros number_ok props props' fprops fprops' Hs Hf Hf' Hkeys.
  unfold validateLicenseDetails, LicenseDetailsSchema, field.
  rewrite Hs, Hf, Hf'.
  rewrite (LicenseFeaturesSchema_ext number_ok _ fprops fprops' Hkeys).
  reflexivity.
Qed.

Lemma validateLicenseDetails_schema_keys_only_witness :
  validateLicenseDetails zod3_number_ok
    (JObject [("issuedTo", JString "acme");
              ("status", JString "active");
              ("features", JObject (("seats", JNumber 5%float)
                                      :: feature_properties all_enabled))])
  = validateLicenseDetails zod3_number_ok
      (JObject [("status", JString "active");
                ("features", JObject (feature_properties all_enabled))]).
Proof.
  apply (validateLicenseDetails_schema_keys_only zod3_number_ok
           [("issuedTo", JString "acme");
            ("status", JString "active");
            ("features", JObject (("seats", JNumber 5%float)
                                    :: feature_properties all_enabled))]
           [("status", JString "active");
            ("features", JObject (feature_properties all_enabled))]
           (("seats", JNumber 5%float) :: feature_properties all_enabled)
           (feature_properties all_enabled)).
  - reflexivity.
  - reflexivity.
  - reflexivity.
  - intros key Hin. cbn in Hin.
    repeat (destruct Hin as [<- | Hin]; [reflexivity |]). contradiction.
Defined.

Lemma validateLicenseDetails_reads_input_witness :
  exists props fprops,
    JObject [("status", JString "expired");
             ("features", serializeFeatures all_enabled)] = JObject props
    /\ get_prop props "status" = serializeStatus expired_
    /\ get_prop props "features" = JObject fprops
    /\ (forall key value,
          In (key, value) (feature_properties all_enabled) ->
          get_prop fprops key = value)
    /\ projects_accepted zod3_number_ok all_enabled.
Proof.
  apply (validateLicenseDetails_reads_input zod3_number_ok
           (JObject [("status", JString "expired");
                     ("features", serializeFeatures all_enabled)])
           (mkDetails expired_ all_enabled)).
  reflexivity.
Defined.

(** ** The fetcher in any world *)

Lemma handle_response_Delegate w retryCount res t :
  handle_response w retryCount res = (t, Ok Delegate) ->
  (retryCount < CONFIG.CACHE.MAX_RETRIES)%nat
  /\ includes retryable_statuses (res_status res) = true
  /\ res_ok res = false.
Proof.
  intros H. destruct (res_ok res) eqn:Hok.
  - exfalso. unfold handle_response in H. rewrite Hok in H.
    destruct (res_json res) as [json | name]; [| discriminate H].
    cbn in H. destruct json; cbn in H; try discriminate H;
      destruct (validateLicenseDetails _ _); discriminate H.
  - rewrite (handle_response_failure w retryCount res Hok) in H.
    destruct (retryCount <? CONFIG.CACHE.MAX_RETRIES)%nat eqn:Hlt;
      [| discriminate H].
    destruct (includes retryable_statuses (res_status res)); [| discriminate H].
    apply Nat.ltb_lt in Hlt. auto.
Qed.

Lemma handle_response_sleeps w retryCount res :
  sleeps (trace (handle_response w retryCount res)) =
  match outcome (handle_response w retryCount res) with
  | Ok Delegate => [backoff_delay retryCount]
  | _ => []
  end.
Proof.
  destruct (res_ok res) eqn:Hok.
  - unfold handle_response. rewrite Hok.
    destruct (res_json res) as [json | name]; [| reflexivity].
    cbn. destruct json; cbn; try reflexivity;
      destruct (validateLicenseDetails _ _); reflexivity.
  - rewrite (handle_response_failure w retryCount res Hok).
    destruct (_ && _); reflexivity.
Qed.

Lemma make_agent_error w p t e :
  make_agent w p = (t, Err e) -> exists name, e = ExternalError name.
Proof.
  unfold make_agent. destruct (truthy p); [| discriminate].
  destruct p as [url |]; [| discriminate].
  cbn. destruct (new_HttpsProxyAgent w url) as [a | name]; cbn; intros H;
    inversion H. exists name. reflexivity.
Qed.

(** When a prerequisite is missing nothing is sent: the block returns
    [null] (no instance id) or throws the collaborator's error. *)
Lemma guarded_block_not_sent w retryCount :
  request_sent w retryCount = false ->
  network_calls (trace (guarded_block w retryCount)) = 0%nat
  /\ sleeps (trace (guarded_block w retryCount)) = []
  /\ (outcome (guarded_block w retryCount) = Ok (Return None)
      \/ exists name,
           outcome (guarded_block w retryCount) = Err (ExternalError name)).
Proof.
  unfold request_sent, instance_identified, count_available, agent_available.
  unfold guarded_block, gather_prerequisites.
  pose proof (trace_make_agent w
                (nullish_or (HTTPS_PROXY (env w)) (HTTP_PROXY (env w)))) as Htr.
  destruct (make_agent w _) as [ta [agent | e]] eqn:Hmk; cbn in Htr; subst ta;
    destruct (response_count (attempts w retryCount)) as [n | e'];
    destruct (E2E_TESTING (env w));
    try destruct (getInstanceId (attempts w retryCount)) as [[id |] | e''];
    cbn -[handle_response];
    try destruct (String.eqb id ""); cbn -[handle_response];
    intros H; try discriminate H;
    try match goal with
        | |- context [1000 <? ?d] => destruct (1000 <? d)
        end;
    cbn -[handle_response];
    try (destruct (make_agent_error w _ _ _ Hmk) as [name' ->]);
    repeat split; eauto.
Qed.

Lemma outcome_try_block w retryCount :
  outcome (try_block w retryCount) =
  match outcome (guarded_block w retryCount) with
  | Ok c => Ok c
  | Err _ => Ok (Return None)
  end.
Proof.
  destruct (outcome (guarded_block w retryCount)) as [c | e] eqn:Ho.
  - rewrite (try_block_of_guarded_Ok w retryCount c Ho). reflexivity.
  - rewrite (try_block_of_guarded_Err w retryCount e Ho). reflexivity.
Qed.

(** An attempt sends one request when its prerequisites are met and none
    otherwise. *)
Lemma network_calls_attempt w retryCount :
  network_calls (trace (try_block w retryCount)) =
  if request_sent w retryCount then 1%nat else 0%nat.
Proof.
  rewrite network_calls_try_block.
  destruct (request_sent w retryCount) eqn:Hsent.
  - apply guarded_block_sent_network_calls. exact Hsent.
  - apply guarded_block_not_sent. exact Hsent.
Qed.

(** An attempt sleeps exactly when it asks for the next one, and then for
    the backoff delay of its [retryCount]. *)
Lemma sleeps_attempt w retryCount :
  sleeps (trace (try_block w retryCount)) =
  match outcome (try_block w retryCount) with
  | Ok Delegate => [backoff_delay retryCount]
  | _ => []
  end.
Proof.
  rewrite sleeps_try_block, outcome_try_block.
  destruct (request_sent w retryCount) eqn:Hsent.
  - rewrite (guarded_block_sent_sleeps w retryCount Hsent),
      (guarded_block_sent_outcome w retryCount Hsent).
    destruct (http (attempts w retryCount)) as [res | name]; [| reflexivity].
    rewrite handle_response_sleeps.
    destruct (outcome (handle_response w retryCount res)) as [[v |] | e];
      reflexivity.
  - destruct (guarded_block_not_sent w retryCount Hsent) as (_ & Hs & [Ho | [name Ho]]);
      rewrite Hs, Ho; reflexivity.
Qed.

Lemma Delegate_needs_response w retryCount :
  outcome (try_block w retryCount) = Ok Delegate ->
  (retryCount < CONFIG.CACHE.MAX_RETRIES)%nat
  /\ request_sent w retryCount = true
  /\ exists res, http (attempts w retryCount) = Ok res
                 /\ includes retryable_statuses (res_status res) = true
                 /\ res_ok res = false.
Proof.
  intros Ho. rewrite outcome_try_block in Ho.
  destruct (request_sent w retryCount) eqn:Hsent.
  - rewrite (guarded_block_sent_outcome w retryCount Hsent) in Ho.
    destruct (http (attempts w retryCount)) as [res | name]; [| discriminate Ho].
    destruct (outcome (handle_response w retryCount res)) as [c | e] eqn:Hh;
      [| discriminate Ho].
    inversion Ho; subst c.
    destruct (handle_response_Delegate w retryCount res
                (trace (handle_response w retryCount res))) as (H1 & H2 & H3).
    { rewrite (M_eta (handle_response w retryCount res)), Hh. reflexivity. }
    split; [exact H1 |]. split; [reflexivity |]. exists res. auto.
  - destruct (guarded_block_not_sent w retryCount Hsent) as (_ & _ & [H | [name H]]);
      rewrite H in Ho; discriminate Ho.
Qed.

(** Reasoning about a call attempt by attempt. *)
Lemma fetch_attempts_ind (w : World)
      (P : nat -> M (option TEnterpriseLicenseDetails) -> Prop) :
  (forall retryCount, P retryCount ([], Ok None)) ->
  (forall retryCount v,
      outcome (try_block w retryCount) = Ok (Return v) ->
      P retryCount (trace (try_block w retryCount), Ok v)) ->
  (forall retryCount,
      outcome (try_block w retryCount) = Ok Delegate ->
      P (retryCount + 1)%nat (fetchLicenseFromServerInternal w (retryCount + 1)%nat) ->
      P retryCount
        ((trace (try_block w retryCount)
            ++ trace (fetchLicenseFromServerInternal w (retryCount + 1)%nat))%list,
         outcome (fetchLicenseFromServerInternal w (retryCount + 1)%nat))) ->
  forall retryCount, P retryCount (fetchLicenseFromServerInternal w retryCount).
Proof.
  intros Hguard Hreturn Hretry retryCount.
  funelim (fetchLicenseFromServerInternal w retryCount).
  - apply Hguard.
  - apply Hguard.
  - specialize (Hreturn retryCount v). rewrite e in Hreturn. apply Hreturn.
    reflexivity.
  - pose proof (Hretry retryCount) as Hr. rewrite e in Hr. apply Hr.
    + reflexivity.
    + apply H; assumption.
  - destruct (try_block_returns w retryCount) as [c Hc].
    rewrite e in Hc. discriminate Hc.
Qed.

Lemma backoff_schedule_step retryCount :
  (retryCount < CONFIG.CACHE.MAX_RETRIES)%nat ->
  backoff_schedule retryCount
  = backoff_delay retryCount :: backoff_schedule (retryCount + 1).
Proof.
  unfold backoff_schedule. intros Hlt.
  replace (CONFIG.CACHE.MAX_RETRIES - retryCount)%nat
    with (S (CONFIG.CACHE.MAX_RETRIES - (retryCount + 1)))%nat by lia.
  cbn [seq map]. rewrite Nat.add_1_r. reflexivity.
Qed.

Lemma backoff_prefix_total retryCount slept rest :
  backoff_schedule retryCount = (slept ++ rest)%list ->
  0 <= sum_Z slept <= 7000.
Proof.
  unfold backoff_schedule, CONFIG.CACHE.MAX_RETRIES.
  destruct retryCount as [| [| [| k]]]; cbn;
    destruct slept as [| a [| b [| c [| d slept]]]]; cbn; intros H;
    inversion H; subst; cbn; lia.
Qed.

(** X3: whatever the collaborators and the authority answer, a call
    entered with [retryCount] sends at most [MAX_RETRIES - retryCount + 1]
    requests (four from zero), never sleeps more often than it sends, sleeps
    an initial part of the backoff schedule of its [retryCount] and so at
    most seven seconds in all. *)
Theorem fetch_is_bounded :
  forall (w : World) (retryCount : nat),
    (network_calls (trace (fetchLicenseFromServerInternal w retryCount))
     <= S (CONFIG.CACHE.MAX_RETRIES - retryCount))%nat
    /\ (List.length (sleeps (trace (fetchLicenseFromServerInternal w retryCount)))
        <= network_calls (trace (fetchLicenseFromServerInternal w retryCount)))%nat
    /\ (exists rest,
          backoff_schedule retryCount
          = (sleeps (trace (fetchLicenseFromServerInternal w retryCount)) ++ rest)%list)
    /\ 0 <= sum_Z (sleeps (trace (fetchLicenseFromServerInternal w retryCount))) <= 7000
    /\ backoff_schedule 0 = [1000; 2000; 4000].
Proof.
  intros w retryCount.
  assert (H : (network_calls (trace (fetchLicenseFromServerInternal w retryCount))
               <= S (CONFIG.CACHE.MAX_RETRIES - retryCount))%nat
              /\ (List.length (sleeps (trace (fetchLicenseFromServerInternal w retryCount)))
                  <= network_calls (trace (fetchLicenseFromServerInternal w retryCount)))%nat
              /\ (exists rest,
                    backoff_schedule retryCount
                    = (sleeps (trace (fetchLicenseFromServerInternal w retryCount))
                         ++ rest)%list)).
  { apply (fetch_attempts_ind w
             (fun rc c =>
                (network_calls (trace c) <= S (CONFIG.CACHE.MAX_RETRIES - rc))%nat
                /\ (List.length (sleeps (trace c)) <= network_calls (trace c))%nat
                /\ exists rest, backoff_schedule rc = (sleeps (trace c) ++ rest)%list)).
    - intros rc. cbn. repeat split; try lia. eexists. reflexivity.
    - intros rc v Ho. cbn [trace fst].
      rewrite sleeps_attempt, Ho, network_calls_attempt.
      destruct (request_sent w rc); cbn; repeat split; try lia;
        eexists; reflexivity.
    - intros rc Ho (IH1 & IH2 & rest & IH3). cbn [trace fst].
      destruct (Delegate_needs_response w rc Ho) as (Hlt & Hsent & _).
      rewrite network_calls_app, sleeps_app, sleeps_attempt, Ho,
        network_calls_attempt, Hsent.
      cbn [app List.length]. repeat split; try lia.
      exists rest. rewrite (backoff_schedule_step rc Hlt), IH3. reflexivity. }
  destruct H as (H1 & H2 & rest & H3).
  repeat split; auto.
  - exists rest. exact H3.
  - exact (proj1 (backoff_prefix_total retryCount _ rest H3)).
  - exact (proj2 (backoff_prefix_total retryCount _ rest H3)).
Qed.

(** *** A 2xx response *)

Lemma handle_response_details w retryCount res d :
  outcome (handle_response w retryCount res) = Ok (Return (Some d)) ->
  res_ok res = true
  /\ exists responseJson data,
       res_json res = Ok responseJson
       /\ outcome (get_data responseJson) = Ok data
       /\ validateLicenseDetails (zod_number_ok w) data = Ok d.
Proof.
  intros H. destruct (res_ok res) eqn:Hok.
  - split; [reflexivity |]. unfold handle_response in H. rewrite Hok in H.
    destruct (res_json res) as [json | name]; [| discriminate H].
    exists json. cbn in H.
    destruct (get_data json) as [tg [data | e]] eqn:Hg; [| discriminate H].
    exists data. cbn in H.
    destruct (validateLicenseDetails (zod_number_ok w) data) as [d' | issues];
      cbn in H; [| discriminate H].
    inversion H; subst. auto.
  - rewrite (handle_response_failure w retryCount res Hok) in H.
    destruct (_ && _); discriminate H.
Qed.

(** X5: details are returned only after validation: whenever a call
    returns details, some attempt from [retryCount] on sent its request,
    received a 2xx response, and these details are what the validator made
    of the [data] property of its body. *)
Theorem fetch_result_was_validated :
  forall (w : World) (retryCount : nat) (d : TEnterpriseLicenseDetails),
    outcome (fetchLicenseFromServerInternal w retryCount) = Ok (Some d) ->
    exists n res responseJson data,
      (retryCount <= n)%nat
      /\ request_sent w n = true
      /\ http (attempts w n) = Ok res
      /\ res_ok res = true
      /\ res_json res = Ok responseJson
      /\ outcome (get_data responseJson) = Ok data
      /\ validateLicenseDetails (zod_number_ok w) data = Ok d.
Proof.
  intros w retryCount d.
  apply (fetch_attempts_ind w
           (fun rc c =>
              outcome c = Ok (Some d) ->
              exists n res responseJson data,
                (rc <= n)%nat
                /\ request_sent w n = true
                /\ http (attempts w n) = Ok res
                /\ res_ok res = true
                /\ res_json res = Ok responseJson
                /\ outcome (get_data responseJson) = Ok data
                /\ validateLicenseDetails (zod_number_ok w) data = Ok d)).
  - intros rc H. discriminate H.
  - intros rc v Ho H. cbn in H. inversion H; subst v.
    rewrite outcome_try_block in Ho.
    destruct (request_sent w rc) eqn:Hsent.
    + rewrite (guarded_block_sent_outcome w rc Hsent) in Ho.
      destruct (http (attempts w rc)) as [res | name] eqn:Hhttp;
        [| discriminate Ho].
      destruct (outcome (handle_response w rc res)) as [c | e] eqn:Hh;
        inversion Ho; subst.
      destruct (handle_response_details w rc res d Hh)
        as (Hok & json & data & Hjson & Hdata & Hval).
      exists rc, res, json, data. repeat split; auto.
    + destruct (guarded_block_not_sent w rc Hsent) as (_ & _ & [Hn | [name Hn]]);
        rewrite Hn in Ho; discriminate Ho.
  - intros rc _ IH H. cbn in H.
    destruct (IH H) as (n & res & json & data & Hle & Hrest).
    exists n, res, json, data. split; [lia | exact Hrest].
Qed.

Lemma fetch_result_was_validated_witness :
  exists n res responseJson data,
    (0 <= n)%nat
    /\ request_sent (answering_world 200 (Ok valid_body)) n = true
    /\ http (attempts (answering_world 200 (Ok valid_body)) n) = Ok res
    /\ res_ok res = true
    /\ res_json res = Ok responseJson
    /\ outcome (get_data responseJson) = Ok data
    /\ validateLicenseDetails (zod_number_ok (answering_world 200 (Ok valid_body))) data
       = Ok (mkDetails active_ all_enabled).
Proof.
  apply (fetch_result_was_validated (answering_world 200 (Ok valid_body)) 0
           (mkDetails active_ all_enabled)).
  reflexivity.
Defined.

(** *** Retrying *)

(** X6: an attempt below the retry bound that receives a retryable status
    sleeps its backoff delay and then the call returns whatever the next
    attempt returns, success included. *)
Theorem fetch_retry_continues :
  forall (w : World) (retryCount : nat) (res : Response),
    key_configured w = true ->
    is_build_phase (env w) = false ->
    request_sent w retryCount = true ->
    http (attempts w retryCount) = Ok res ->
    includes retryable_statuses (res_status res) = true ->
    (retryCount < CONFIG.CACHE.MAX_RETRIES)%nat ->
    outcome (fetchLicenseFromServerInternal w retryCount)
    = outcome (fetchLicenseFromServerInternal w (retryCount + 1))
    /\ sleeps (trace (fetchLicenseFromServerInternal w retryCount))
       = backoff_delay retryCount
           :: sleeps (trace (fetchLicenseFromServerInternal w (retryCount + 1)))
    /\ network_calls (trace (fetchLicenseFromServerInternal w retryCount))
       = S (network_calls (trace (fetchLicenseFromServerInternal w (retryCount + 1)))).
Proof.
  intros w retryCount res Hkey Hbuild Hsent Hhttp Hretry Hlt.
  destruct (try_block_retryable w retryCount res Hsent Hhttp Hretry)
    as (Ho & Hs & Hn).
  apply Nat.ltb_lt in Hlt. rewrite Hlt in Ho, Hs.
  rewrite (fetchLicenseFromServerInternal_next w retryCount Hkey Hbuild), Ho.
  cbn [trace outcome fst snd].
  rewrite sleeps_app, network_calls_app, Hs, Hn. auto.
Qed.

Lemma fetch_retry_continues_witness :
  outcome (fetchLicenseFromServerInternal (answering_world 429 (Err "unread")) 1)
  = outcome (fetchLicenseFromServerInternal (answering_world 429 (Err "unread")) (1 + 1))
  /\ sleeps (trace (fetchLicenseFromServerInternal
                      (answering_world 429 (Err "unread")) 1))
     = backoff_delay 1
         :: sleeps (trace (fetchLicenseFromServerInternal
                             (answering_world 429 (Err "unread")) (1 + 1)))
  /\ network_calls (trace (fetchLicenseFromServerInternal
                             (answering_world 429 (Err "unread")) 1))
     = S (network_calls (trace (fetchLicenseFromServerInternal
                                  (answering_world 429 (Err "unread")) (1 + 1)))).
Proof.
  apply (fetch_retry_continues (answering_world 429 (Err "unread")) 1
           (mkResponse 429 (Err "unread"))); try reflexivity.
  unfold CONFIG.CACHE.MAX_RETRIES. lia.
Defined.

(** *** Attempts that send nothing, and requests that fail *)

Lemma errors_logged_app t1 t2 :
  errors_logged (t1 ++ t2) = (errors_logged t1 + errors_logged t2)%nat.
Proof. unfold errors_logged. rewrite filter_app, length_app. reflexivity. Qed.

Lemma timers_cleared_app t1 t2 :
  timers_cleared (t1 ++ t2) = (timers_cleared t1 + timers_cleared t2)%nat.
Proof. unfold timers_cleared. rewrite filter_app, length_app. reflexivity. Qed.

Lemma timeouts_app t1 t2 : timeouts (t1 ++ t2) = (timeouts t1 ++ timeouts t2)%list.
Proof.
  induction t1 as [| ev t1 IH]; cbn; [reflexivity |].
  destruct ev; cbn; rewrite ?IH; reflexivity.
Qed.

(** X7: when a prerequisite of the attempt is missing (no instance id
    outside an E2E run, or the instance lookup, the response count or the
    construction of the proxy agent fails) the call returns [null] at once:
    no request is sent, no timer is armed and nothing is retried. *)
Theorem fetch_without_prerequisites :
  forall (w : World) (retryCount : nat),
    request_sent w retryCount = false ->
    outcome (fetchLicenseFromServerInternal w retryCount) = Ok None
    /\ network_calls (trace (fetchLicenseFromServerInternal w retryCount)) = 0%nat
    /\ sleeps (trace (fetchLicenseFromServerInternal w retryCount)) = [].
Proof.
  intros w retryCount Hsent.
  destruct (key_configured w) eqn:Hkey;
    [| rewrite fetchLicenseFromServerInternal_no_key by exact Hkey; auto].
  destruct (is_build_phase (env w)) eqn:Hbuild;
    [rewrite fetchLicenseFromServerInternal_build_phase by exact Hbuild; auto |].
  pose proof (outcome_try_block w retryCount) as Hto.
  pose proof (network_calls_attempt w retryCount) as Hn. rewrite Hsent in Hn.
  pose proof (sleeps_attempt w retryCount) as Hs.
  destruct (guarded_block_not_sent w retryCount Hsent) as (_ & _ & [Ho | [name Ho]]);
    rewrite Ho in Hto; rewrite Hto in Hs;
    rewrite (fetchLicenseFromServerInternal_next w retryCount Hkey Hbuild), Hto;
    cbn [trace outcome fst snd]; auto.
Qed.

Lemma fetch_without_prerequisites_witness :
  outcome (fetchLicenseFromServerInternal
             (sample_world (Some "license-key")
                           (fun _ => mkAttempt (Ok (Some "")) (Ok 42) 10
                                               (Ok (mkResponse 200 (Ok valid_body))))
                           empty_store) 0) = Ok None
  /\ network_calls (trace (fetchLicenseFromServerInternal
             (sample_world (Some "license-key")
                           (fun _ => mkAttempt (Ok (Some "")) (Ok 42) 10
                                               (Ok (mkResponse 200 (Ok valid_body))))
                           empty_store) 0)) = 0%nat
  /\ sleeps (trace (fetchLicenseFromServerInternal
             (sample_world (Some "license-key")
                           (fun _ => mkAttempt (Ok (Some "")) (Ok 42) 10
                                               (Ok (mkResponse 200 (Ok valid_body))))
                           empty_store) 0)) = [].
Proof.
  apply (fetch_without_prerequisites
           (sample_world (Some "license-key")
                         (fun _ => mkAttempt (Ok (Some "")) (Ok 42) 10
                                             (Ok (mkResponse 200 (Ok valid_body))))
                         empty_store) 0).
  reflexivity.
Defined.

(** *** The events of an attempt *)

Lemma handle_response_events w retryCount res ev :
  In ev (trace (handle_response w retryCount res)) ->
  ev = EvLogDebug "License check API response received"
  \/ ev = EvTrackApiError (res_status res)
  \/ ev = EvSleep (backoff_delay retryCount).
Proof.
  destruct (res_ok res) eqn:Hok.
  - unfold handle_response. rewrite Hok.
    destruct (res_json res) as [json | name]; [| intros []].
    cbn. destruct json; cbn; try (intros []);
      destruct (validateLicenseDetails _ _); cbn; intros H;
      repeat (destruct H as [H | H]; [subst; auto |]); contradiction.
  - rewrite (handle_response_failure w retryCount res Hok).
    destruct (_ && _); cbn; intros H;
      repeat (destruct H as [H | H]; [subst; auto |]); contradiction.
Qed.

Lemma guarded_block_events w retryCount ev :
  In ev (trace (guarded_block w retryCount)) ->
  (ev = EvGetInstanceId /\ E2E_TESTING (env w) = false)
  \/ ev = EvResponseCount (current_year w) (current_year w + 1)
  \/ ev = EvLogWarn "Slow license check prerequisite data fetching (DB count)"
  \/ ev = EvSetTimeout CONFIG.API.TIMEOUT_MS
  \/ (exists p agent,
        ev = EvFetch (CONFIG.API.ENDPOINT (ENVIRONMENT (env w))) p agent
        /\ attempt_request w retryCount p agent)
  \/ ev = EvClearTimeout
  \/ (exists res, http (attempts w retryCount) = Ok res
                  /\ In ev (trace (handle_response w retryCount res))).
Proof.
  unfold guarded_block, gather_prerequisites, attempt_request.
  pose proof (trace_make_agent w
                (nullish_or (HTTPS_PROXY (env w)) (HTTP_PROXY (env w)))) as Htr.
  destruct (make_agent w _) as [ta [agent | e]] eqn:Hmk; cbn in Htr; subst ta;
    destruct (response_count (attempts w retryCount)) as [n | e'];
    destruct (E2E_TESTING (env w));
    try destruct (getInstanceId (attempts w retryCount)) as [[id |] | e''];
    cbn -[handle_response];
    try destruct (String.eqb id "") eqn:Hid; cbn -[handle_response];
    try match goal with
        | |- context [1000 <? ?d] => destruct (1000 <? d)
        end;
    cbn -[handle_response];
    try (destruct (http (attempts w retryCount)) as [res | name];
         cbn -[handle_response];
         try (rewrite (M_eta (handle_response w retryCount res));
              cbn -[handle_response]));
    intros H;
    repeat (destruct H as [H | H];
            [subst ev;
             first [ solve [auto 8]
                   | solve [do 4 right; left; do 2 eexists;
                            split; [reflexivity |]; cbn; rewrite ?Hid; auto] ]
            |]);
    try contradiction;
    do 6 right; exists res; auto.
Qed.

Lemma handle_response_quiet w retryCount res :
  timeouts (trace (handle_response w retryCount res)) = []
  /\ timers_cleared (trace (handle_response w retryCount res)) = 0%nat
  /\ errors_logged (trace (handle_response w retryCount res)) = 0%nat.
Proof.
  destruct (res_ok res) eqn:Hok.
  - unfold handle_response. rewrite Hok.
    destruct (res_json res) as [json | name]; [| repeat split].
    cbn. destruct json; cbn; try (repeat split; fail);
      destruct (validateLicenseDetails _ _); repeat split.
  - rewrite (handle_response_failure w retryCount res Hok).
    destruct (_ && _); repeat split.
Qed.

(** A timer is armed for each request and for nothing else; it is cleared
    when the response arrives and left to fire when the request fails; the
    block itself logs no error. *)
Lemma guarded_block_timers w retryCount :
  timeouts (trace (guarded_block w retryCount))
  = (if request_sent w retryCount then [CONFIG.API.TIMEOUT_MS] else [])
  /\ timers_cleared (trace (guarded_block w retryCount))
     = (if request_sent w retryCount
        then match http (attempts w retryCount) with
             | Ok _ => 1%nat
             | Err _ => 0%nat
             end
        else 0%nat)
  /\ errors_logged (trace (guarded_block w retryCount)) = 0%nat.
Proof.
  unfold request_sent, instance_identified, count_available, agent_available.
  unfold guarded_block, gather_prerequisites.
  pose proof (trace_make_agent w
                (nullish_or (HTTPS_PROXY (env w)) (HTTP_PROXY (env w)))) as Htr.
  destruct (make_agent w _) as [ta [agent | e]] eqn:Hmk; cbn in Htr; subst ta;
    destruct (response_count (attempts w retryCount)) as [n | e'];
    destruct (E2E_TESTING (env w));
    try destruct (getInstanceId (attempts w retryCount)) as [[id |] | e''];
    cbn -[handle_response];
    try destruct (String.eqb id "") eqn:Hid; cbn -[handle_response];
    try match goal with
        | |- context [1000 <? ?d] => destruct (1000 <? d)
        end;
    cbn -[handle_response];
    try (destruct (http (attempts w retryCount)) as [res | name];
         cbn -[handle_response];
         try (rewrite (M_eta (handle_response w retryCount res));
              destruct (handle_response_quiet w retryCount res) as (Q1 & Q2 & Q3);
              unfold timers_cleared, errors_logged in *;
              cbn -[handle_response]; rewrite ?Q1, ?Q2, ?Q3));
    repeat split.
Qed.

Lemma trace_try_block w retryCount :
  trace (try_block w retryCount) =
  (trace (guarded_block w retryCount)
     ++ match outcome (guarded_block w retryCount) with
        | Ok _ => []
        | Err _ => [EvLogError "Error while fetching license from server"]
        end)%list.
Proof.
  destruct (outcome (guarded_block w retryCount)) as [c | e] eqn:Ho.
  - rewrite (try_block_of_guarded_Ok w retryCount c Ho), app_nil_r. reflexivity.
  - rewrite (try_block_of_guarded_Err w retryCount e Ho). reflexivity.
Qed.

Lemma attempt_timers w retryCount :
  timeouts (trace (try_block w retryCount))
  = (if request_sent w retryCount then [CONFIG.API.TIMEOUT_MS] else [])
  /\ timers_cleared (trace (try_block w retryCount))
     = (if request_sent w retryCount
        then match http (attempts w retryCount) with
             | Ok _ => 1%nat
             | Err _ => 0%nat
             end
        else 0%nat)
  /\ errors_logged (trace (try_block w retryCount))
     = match outcome (guarded_block w retryCount) with
       | Ok _ => 0%nat
       | Err _ => 1%nat
       end.
Proof.
  destruct (guarded_block_timers w retryCount) as (T1 & T2 & T3).
  rewrite trace_try_block, timeouts_app, timers_cleared_app, errors_logged_app,
    T1, T2, T3.
  destruct (outcome (guarded_block w retryCount)); cbn;
    rewrite ?app_nil_r, ?Nat.add_0_r; auto.
Qed.

(** X8: a request that fails at the network level, or is aborted by the
    timeout, is not retried: the call has sent that one request, sleeps for
    nothing, logs the error once, leaves the timer uncleared and returns
    [null]. *)
Theorem network_failure_not_retried :
  forall (w : World) (retryCount : nat) (name : string),
    key_configured w = true ->
    is_build_phase (env w) = false ->
    request_sent w retryCount = true ->
    http (attempts w retryCount) = Err name ->
    outcome (fetchLicenseFromServerInternal w retryCount) = Ok None
    /\ network_calls (trace (fetchLicenseFromServerInternal w retryCount)) = 1%nat
    /\ sleeps (trace (fetchLicenseFromServerInternal w retryCount)) = []
    /\ errors_logged (trace (fetchLicenseFromServerInternal w retryCount)) = 1%nat
    /\ timers_cleared (trace (fetchLicenseFromServerInternal w retryCount)) = 0%nat.
Proof.
  intros w retryCount name Hkey Hbuild Hsent Hhttp.
  pose proof (guarded_block_sent_outcome w retryCount Hsent) as Hout.
  rewrite Hhttp in Hout.
  pose proof (outcome_try_block w retryCount) as Hto. rewrite Hout in Hto.
  destruct (attempt_timers w retryCount) as (_ & T2 & T3).
  rewrite Hsent, Hhttp in T2. rewrite Hout in T3.
  rewrite (fetchLicenseFromServerInternal_next w retryCount Hkey Hbuild), Hto.
  cbn [trace outcome fst snd].
  rewrite sleeps_attempt, Hto, network_calls_attempt, Hsent. auto.
Qed.

Lemma network_failure_not_retried_witness :
  outcome (fetchLicenseFromServerInternal
             (unreachable_world (Some "license-key") empty_store) 0) = Ok None
  /\ network_calls (trace (fetchLicenseFromServerInternal
             (unreachable_world (Some "license-key") empty_store) 0)) = 1%nat
  /\ sleeps (trace (fetchLicenseFromServerInternal
             (unreachable_world (Some "license-key") empty_store) 0)) = []
  /\ errors_logged (trace (fetchLicenseFromServerInternal
             (unreachable_world (Some "license-key") empty_store) 0)) = 1%nat
  /\ timers_cleared (trace (fetchLicenseFromServerInternal
             (unreachable_world (Some "license-key") empty_store) 0)) = 0%nat.
Proof.
  apply (network_failure_not_retried
           (unreachable_world (Some "license-key") empty_store) 0 "ECONNREFUSED");
    reflexivity.
Defined.

(** X9: in every call, one timer of [TIMEOUT_MS] = 5000 ms is armed per
    request sent and none otherwise; no more timers are cleared than
    requests were sent; and the [catch] clause logs at most one error, after
    which the call returns [null]. *)
Theorem fetch_timers_and_errors :
  forall (w : World) (retryCount : nat),
    timeouts (trace (fetchLicenseFromServerInternal w retryCount))
    = repeat CONFIG.API.TIMEOUT_MS
             (network_calls (trace (fetchLicenseFromServerInternal w retryCount)))
    /\ (timers_cleared (trace (fetchLicenseFromServerInternal w retryCount))
        <= network_calls (trace (fetchLicenseFromServerInternal w retryCount)))%nat
    /\ (errors_logged (trace (fetchLicenseFromServerInternal w retryCount)) <= 1)%nat
    /\ (errors_logged (trace (fetchLicenseFromServerInternal w retryCount)) = 1%nat ->
        outcome (fetchLicenseFromServerInternal w retryCount) = Ok None).
Proof.
  intros w retryCount.
  apply (fetch_attempts_ind w
           (fun rc c =>
              timeouts (trace c) = repeat CONFIG.API.TIMEOUT_MS (network_calls (trace c))
              /\ (timers_cleared (trace c) <= network_calls (trace c))%nat
              /\ (errors_logged (trace c) <= 1)%nat
              /\ (errors_logged (trace c) = 1%nat -> outcome c = Ok None))).
  - intros rc. cbn. repeat split; lia.
  - intros rc v Ho. cbn [trace outcome fst snd].
    destruct (attempt_timers w rc) as (T1 & T2 & T3).
    rewrite T1, T2, T3, network_calls_attempt.
    rewrite outcome_try_block in Ho.
    destruct (request_sent w rc);
      destruct (http (attempts w rc));
      destruct (outcome (guarded_block w rc)); cbn; repeat split; try lia;
      intros H; try discriminate H; inversion Ho; reflexivity.
  - intros rc Ho (IH1 & IH2 & IH3 & IH4). cbn [trace outcome fst snd].
    destruct (Delegate_needs_response w rc Ho) as (_ & Hsent & res & Hhttp & _).
    destruct (attempt_timers w rc) as (T1 & T2 & T3).
    rewrite outcome_try_block in Ho.
    destruct (outcome (guarded_block w rc)) as [c | e]; [| discriminate Ho].
    rewrite timeouts_app, timers_cleared_app, errors_logged_app,
      network_calls_app, T1, T2, T3, network_calls_attempt, Hsent, Hhttp, IH1.
    cbn. repeat split; auto; lia.
Qed.

(** *** What is sent *)

(** Every event of a call is the error line of the [catch] clause or an
    event of the guarded block of one of its attempts; and a call that does
    anything at all has passed the two guards. *)
Lemma fetch_events w retryCount ev :
  In ev (trace (fetchLicenseFromServerInternal w retryCount)) ->
  key_configured w = true
  /\ is_build_phase (env w) = false
  /\ (ev = EvLogError "Error while fetching license from server"
      \/ exists n, (retryCount <= n)%nat /\ In ev (trace (guarded_block w n))).
Proof.
  intros Hin. split; [| split].
  - destruct (key_configured w) eqn:Hkey; [reflexivity |].
    rewrite fetchLicenseFromServerInternal_no_key in Hin by exact Hkey.
    destruct Hin.
  - destruct (is_build_phase (env w)) eqn:Hbuild; [| reflexivity].
    rewrite fetchLicenseFromServerInternal_build_phase in Hin by exact Hbuild.
    destruct Hin.
  - revert Hin.
    apply (fetch_attempts_ind w
             (fun rc c =>
                In ev (trace c) ->
                ev = EvLogError "Error while fetching license from server"
                \/ exists n, (rc <= n)%nat /\ In ev (trace (guarded_block w n)))).
    + intros rc [].
    + intros rc v _. cbn [trace fst]. rewrite trace_try_block.
      intros Hin. apply in_app_or in Hin. destruct Hin as [Hin | Hin].
      * right. exists rc. auto.
      * destruct (outcome (guarded_block w rc)); [destruct Hin |].
        destruct Hin as [<- | []]. left. reflexivity.
    + intros rc _ IH. cbn [trace fst]. rewrite trace_try_block.
      intros Hin. apply in_app_or in Hin. destruct Hin as [Hin | Hin].
      * apply in_app_or in Hin. destruct Hin as [Hin | Hin].
        -- right. exists rc. auto.
        -- destruct (outcome (guarded_block w rc)); [destruct Hin |].
           destruct Hin as [<- | []]. left. reflexivity.
      * destruct (IH Hin) as [H | (n & Hle & H)]; [left; exact H |].
        right. exists n. split; [lia | exact H].
Qed.

Lemma fetch_event_of_attempt w retryCount endpoint p agent :
  In (EvFetch endpoint p agent) (trace (fetchLicenseFromServerInternal w retryCount)) ->
  key_configured w = true
  /\ endpoint = CONFIG.API.ENDPOINT (ENVIRONMENT (env w))
  /\ exists n, (retryCount <= n)%nat /\ attempt_request w n p agent.
Proof.
  intros Hin. destruct (fetch_events w retryCount _ Hin) as (Hkey & _ & [H | (n & Hle & H)]);
    [discriminate H |].
  split; [exact Hkey |].
  apply guarded_block_events in H.
  destruct H as [[H _] | [H | [H | [H | [(p' & a' & H & Hreq) | [H | (res & _ & H)]]]]]];
    try discriminate H.
  - inversion H; subst. split; [reflexivity |]. exists n. auto.
  - apply handle_response_events in H. destruct H as [H | [H | H]]; discriminate H.
Qed.

Lemma fetches_app t1 t2 : fetches (t1 ++ t2) = (fetches t1 ++ fetches t2)%list.
Proof.
  induction t1 as [| ev t1 IH]; cbn; [reflexivity |].
  destruct ev; cbn; rewrite ?IH; reflexivity.
Qed.

Lemma In_fetches t endpoint p agent :
  In (endpoint, p, agent) (fetches t) <-> In (EvFetch endpoint p agent) t.
Proof.
  induction t as [| ev t IH]; cbn; [tauto |].
  destruct ev; cbn; rewrite IH; split; intros H;
    try (destruct H as [H | H]; [inversion H; subst |]); auto;
    try discriminate.
Qed.

Lemma length_fetches t : List.length (fetches t) = network_calls t.
Proof.
  unfold network_calls. induction t as [| ev t IH]; cbn; [reflexivity |].
  destruct ev; cbn; rewrite ?IH; reflexivity.
Qed.

(** The requests of one attempt: at most one, and it carries what this
    attempt gathered. *)
Lemma fetches_attempt w n endpoint p agent :
  In (endpoint, p, agent) (fetches (trace (try_block w n))) ->
  endpoint = CONFIG.API.ENDPOINT (ENVIRONMENT (env w))
  /\ attempt_request w n p agent.
Proof.
  intros H. apply In_fetches in H. rewrite trace_try_block in H.
  apply in_app_or in H. destruct H as [H | H].
  - apply guarded_block_events in H.
    destruct H as [[H _] | [H | [H | [H | [(p' & a' & H & Hreq) | [H | (res & _ & H)]]]]]];
      try discriminate H.
    + inversion H; subst. auto.
    + apply handle_response_events in H. destruct H as [H | [H | H]]; discriminate H.
  - destruct (outcome (guarded_block w n)); [destruct H |].
    destruct H as [H | []]. discriminate H.
Qed.

Lemma nth_error_short {A} (l : list A) i x :
  (List.length l <= 1)%nat -> nth_error l i = Some x -> i = 0%nat /\ In x l.
Proof.
  destruct l as [| a [| b l]]; cbn; intros Hlen H.
  - destruct i; discriminate H.
  - destruct i as [| [| i]]; cbn in H; inversion H; subst; auto.
  - lia.
Qed.

(** The i-th request of a call is the request of attempt
    [retryCount + i]. *)
Lemma fetch_nth_request w retryCount :
  forall i endpoint p agent,
    nth_error (fetches (trace (fetchLicenseFromServerInternal w retryCount))) i
    = Some (endpoint, p, agent) ->
    endpoint = CONFIG.API.ENDPOINT (ENVIRONMENT (env w))
    /\ attempt_request w (retryCount + i) p agent.
Proof.
  apply (fetch_attempts_ind w
           (fun rc c =>
              forall i endpoint p agent,
                nth_error (fetches (trace c)) i = Some (endpoint, p, agent) ->
                endpoint = CONFIG.API.ENDPOINT (ENVIRONMENT (env w))
                /\ attempt_request w (rc + i) p agent)).
  - intros rc i endpoint p agent H. destruct i; discriminate H.
  - intros rc v _ i endpoint p agent H. cbn [trace fst] in H.
    apply nth_error_short in H.
    + destruct H as [-> H]. rewrite Nat.add_0_r.
      exact (fetches_attempt w rc endpoint p agent H).
    + rewrite length_fetches, network_calls_attempt.
      destruct (request_sent w rc); lia.
  - intros rc Ho IH i endpoint p agent H. cbn [trace fst] in H.
    rewrite fetches_app in H.
    destruct (Delegate_needs_response w rc Ho) as (_ & Hsent & _).
    assert (Hlen : List.length (fetches (trace (try_block w rc))) = 1%nat).
    { rewrite length_fetches, network_calls_attempt, Hsent. reflexivity. }
    destruct i as [| j].
    + rewrite nth_error_app1 in H by lia.
      rewrite Nat.add_0_r. apply (fetches_attempt w rc endpoint p agent).
      apply nth_error_In in H. exact H.
    + rewrite nth_error_app2 in H by lia. rewrite Hlen in H.
      replace (S j - 1)%nat with j in H by lia.
      destruct (IH j endpoint p agent H) as [Hep Hreq].
      split; [exact Hep |].
      replace (rc + S j)%nat with (rc + 1 + j)%nat by lia. exact Hreq.
Qed.

(** X10: every request a call sends goes to the endpoint of the configured
    environment tier and carries the configured, non-empty license key; and
    the i-th request of the call (counting from zero) is sent by attempt
    [retryCount + i] and carries the response count the database answered
    for that very attempt. *)
Theorem fetch_request_content :
  forall (w : World) (retryCount i : nat) (endpoint : string) (p : Payload)
         (agent : option string),
    nth_error (fetches (trace (fetchLicenseFromServerInternal w retryCount))) i
    = Some (endpoint, p, agent) ->
    endpoint = CONFIG.API.ENDPOINT (ENVIRONMENT (env w))
    /\ ENTERPRISE_LICENSE_KEY (env w) = Some (licenseKey p)
    /\ licenseKey p <> ""
    /\ response_count (attempts w (retryCount + i)) = Ok (usage_responseCount p).
Proof.
  intros w retryCount i endpoint p agent Hnth.
  destruct (fetch_nth_request w retryCount i endpoint p agent Hnth)
    as (Hep & Hk & Hc & _).
  assert (Hkey : key_configured w = true).
  { apply nth_error_In in Hnth. apply In_fetches in Hnth.
    exact (proj1 (fetch_events w retryCount _ Hnth)). }
  unfold key_configured, truthy in Hkey.
  destruct (ENTERPRISE_LICENSE_KEY (env w)) as [k |]; [| discriminate Hkey].
  subst k. repeat split; auto.
  intros Hempty. rewrite Hempty in Hkey. discriminate Hkey.
Qed.

Lemma fetch_request_content_witness :
  "https://ee.formbricks.com/api/licenses/check"
  = CONFIG.API.ENDPOINT (ENVIRONMENT (env changing_world))
  /\ ENTERPRISE_LICENSE_KEY (env changing_world)
     = Some (licenseKey (mkPayload "license-key" 2 (Some "instance-b")))
  /\ licenseKey (mkPayload "license-key" 2 (Some "instance-b")) <> ""
  /\ response_count (attempts changing_world (0 + 1))
     = Ok (usage_responseCount (mkPayload "license-key" 2 (Some "instance-b"))).
Proof.
  apply (fetch_request_content changing_world 0 1
           "https://ee.formbricks.com/api/licenses/check"
           (mkPayload "license-key" 2 (Some "instance-b")) None).
  vm_compute. reflexivity.
Defined.

Example changing_world_requests :
  fetches (trace (fetchLicenseFromServerInternal changing_world 0)) =
  [("https://ee.formbricks.com/api/licenses/check",
    mkPayload "license-key" 1 (Some "instance-a"), None);
   ("https://ee.formbricks.com/api/licenses/check",
    mkPayload "license-key" 2 (Some "instance-b"), None)].
Proof. vm_compute. reflexivity. Qed.

(** X11: in an E2E run the instance lookup is never called and no request
    carries an instance id; outside E2E runs the i-th request of a call
    (counting from zero) carries the non-empty instance id that the lookup
    answered for attempt [retryCount + i], the attempt that sends it. *)
Theorem fetch_instance_id :
  forall (w : World) (retryCount : nat),
    (E2E_TESTING (env w) = true ->
     ~ In EvGetInstanceId (trace (fetchLicenseFromServerInternal w retryCount))
     /\ forall endpoint p agent,
          In (EvFetch endpoint p agent)
             (trace (fetchLicenseFromServerInternal w retryCount)) ->
          payload_instanceId p = None)
    /\ (E2E_TESTING (env w) = false ->
        forall i endpoint p agent,
          nth_error (fetches (trace (fetchLicenseFromServerInternal w retryCount))) i
          = Some (endpoint, p, agent) ->
          exists id,
            getInstanceId (attempts w (retryCount + i)) = Ok (Some id)
            /\ id <> ""
            /\ payload_instanceId p = Some id).
Proof.
  intros w retryCount. split; intros He2e.
  - split.
    + intros Hin. destruct (fetch_events w retryCount _ Hin)
        as (_ & _ & [H | (n & _ & H)]); [discriminate H |].
      apply guarded_block_events in H.
      destruct H as [[_ H] | [H | [H | [H | [(p' & a' & H & _) | [H | (res & _ & H)]]]]]];
        try discriminate H.
      * rewrite He2e in H. discriminate H.
      * apply handle_response_events in H. destruct H as [H | [H | H]]; discriminate H.
    + intros endpoint p agent Hin.
      destruct (fetch_event_of_attempt w retryCount endpoint p agent Hin)
        as (_ & _ & n & _ & _ & _ & Hid & _).
      rewrite He2e in Hid. exact Hid.
  - intros i endpoint p agent Hnth.
    destruct (fetch_nth_request w retryCount i endpoint p agent Hnth)
      as (_ & _ & _ & Hid & _).
    rewrite He2e in Hid. destruct Hid as [Hget Htruthy].
    destruct (payload_instanceId p) as [id |]; [| discriminate Htruthy].
    exists id. repeat split; auto.
    intros Hempty. subst id. discriminate Htruthy.
Qed.

(** X12: the proxy of a request follows [HTTPS_PROXY ?? HTTP_PROXY]: a
    non-empty HTTPS_PROXY is used whatever HTTP_PROXY says; an HTTPS_PROXY
    set to the empty string switches the proxy off even when HTTP_PROXY is
    set; HTTP_PROXY is used only when HTTPS_PROXY is not set at all. *)
Theorem fetch_proxy_precedence :
  forall (w : World) (retryCount : nat) (endpoint : string) (p : Payload)
         (agent : option string),
    In (EvFetch endpoint p agent)
       (trace (fetchLicenseFromServerInternal w retryCount)) ->
    (forall url, HTTPS_PROXY (env w) = Some url -> url <> "" ->
                 exists made, new_HttpsProxyAgent w url = Ok made
                              /\ agent = Some made)
    /\ (HTTPS_PROXY (env w) = Some "" -> agent = None)
    /\ (HTTPS_PROXY (env w) = None ->
        forall url, HTTP_PROXY (env w) = Some url -> url <> "" ->
                    exists made, new_HttpsProxyAgent w url = Ok made
                                 /\ agent = Some made)
    /\ (HTTPS_PROXY (env w) = None ->
        HTTP_PROXY (env w) = None \/ HTTP_PROXY (env w) = Some "" ->
        agent = None).
Proof.
  intros w retryCount endpoint p agent Hin.
  destruct (fetch_event_of_attempt w retryCount endpoint p agent Hin)
    as (_ & _ & n & _ & _ & _ & _ & Hagent).
  assert (Hnonempty : forall url, url <> "" -> String.eqb url "" = false).
  { intros url Hne. apply String.eqb_neq. exact Hne. }
  unfold make_agent in Hagent.
  repeat split.
  - intros url Hs Hne. rewrite Hs in Hagent. cbn in Hagent.
    rewrite (Hnonempty url Hne) in Hagent. cbn in Hagent.
    destruct (new_HttpsProxyAgent w url) as [made |]; cbn in Hagent;
      inversion Hagent. exists made. auto.
  - intros Hs. rewrite Hs in Hagent. cbn in Hagent. inversion Hagent. reflexivity.
  - intros Hs url Hh Hne. rewrite Hs, Hh in Hagent. cbn in Hagent.
    rewrite (Hnonempty url Hne) in Hagent. cbn in Hagent.
    destruct (new_HttpsProxyAgent w url) as [made |]; cbn in Hagent;
      inversion Hagent. exists made. auto.
  - intros Hs [Hh | Hh]; rewrite Hs, Hh in Hagent; cbn in Hagent;
      inversion Hagent; reflexivity.
Qed.

Example e2e_request :
  trace (fetchLicenseFromServerInternal e2e_world 0) =
  [EvResponseCount 2025 2026; EvSetTimeout 5000;
   EvFetch "https://staging.ee.formbricks.com/api/licenses/check"
           (mkPayload "license-key" 7 None) None;
   EvClearTimeout; EvLogDebug "License check API response received"].
Proof. vm_compute. reflexivity. Qed.

Lemma fetch_instance_id_witness :
  (~ In EvGetInstanceId (trace (fetchLicenseFromServerInternal e2e_world 0))
   /\ forall endpoint p agent,
        In (EvFetch endpoint p agent)
           (trace (fetchLicenseFromServerInternal e2e_world 0)) ->
        payload_instanceId p = None)
  /\ (exists id,
        getInstanceId (attempts changing_world (0 + 1)) = Ok (Some id)
        /\ id <> ""
        /\ payload_instanceId (mkPayload "license-key" 2 (Some "instance-b")) = Some id).
Proof.
  split.
  - apply (proj1 (fetch_instance_id e2e_world 0)). reflexivity.
  - apply (proj2 (fetch_instance_id changing_world 0) eq_refl 1%nat
             "https://ee.formbricks.com/api/licenses/check"
             (mkPayload "license-key" 2 (Some "instance-b")) None).
    vm_compute. reflexivity.
Defined.

Lemma fetch_proxy_precedence_witness :
  (forall url, HTTPS_PROXY (env (proxied_world (Some "") (Some "http://proxy:3128")))
               = Some url -> url <> "" ->
               exists made,
                 new_HttpsProxyAgent (proxied_world (Some "") (Some "http://proxy:3128")) url
                 = Ok made /\ @None string = Some made)
  /\ (HTTPS_PROXY (env (proxied_world (Some "") (Some "http://proxy:3128"))) = Some "" ->
      @None string = None)
  /\ (HTTPS_PROXY (env (proxied_world (Some "") (Some "http://proxy:3128"))) = None ->
      forall url, HTTP_PROXY (env (proxied_world (Some "") (Some "http://proxy:3128")))
                  = Some url -> url <> "" ->
                  exists made,
                    new_HttpsProxyAgent (proxied_world (Some "") (Some "http://proxy:3128")) url
                    = Ok made /\ @None string = Some made)
  /\ (HTTPS_PROXY (env (proxied_world (Some "") (Some "http://proxy:3128"))) = None ->
      HTTP_PROXY (env (proxied_world (Some "") (Some "http://proxy:3128"))) = None
      \/ HTTP_PROXY (env (proxied_world (Some "") (Some "http://proxy:3128"))) = Some "" ->
      @None string = None).
Proof.
  apply (fetch_proxy_precedence (proxied_world (Some "") (Some "http://proxy:3128")) 0
           "https://ee.formbricks.com/api/licenses/check"
           (mkPayload "license-key" 42 (Some "instance-1")) None).
  vm_compute. auto.
Defined.

Example proxy_https_first :
  trace (fetchLicenseFromServerInternal
           (proxied_world (Some "http://secure:3129") (Some "http://proxy:3128")) 0) =
  [EvGetInstanceId; EvResponseCount 2025 2026; EvSetTimeout 5000;
   EvFetch "https://ee.formbricks.com/api/licenses/check"
           (mkPayload "license-key" 42 (Some "instance-1"))
           (Some "http://secure:3129");
   EvClearTimeout; EvLogDebug "License check API response received"].
Proof. vm_compute. reflexivity. Qed.

(** ** More on single flight *)

Lemma step_accounting w st j st1 rs1 :
  flight_inv st ->
  step w st j = Some (st1, rs1) ->
  (List.length (withCache_calls st1) + in_flight st
   = List.length (withCache_calls st) + in_flight st1
     + (if is_finally j then 1 else 0))%nat
  /\ (List.length (withCache_calls st1)
      <= List.length (withCache_calls st) + (if is_call j then 1 else 0))%nat
  /\ List.length rs1 = (if is_call j then 1 else 0)%nat.
Proof.
  intros Hinv Hstep. destruct j as [| p r | p]; cbn in Hstep.
  - destruct (fetchLicense_cases w st) as [H | [[p [Hs H]] | [Hs H]]];
      rewrite H in Hstep; inversion Hstep; subst; unfold in_flight; cbn;
      rewrite ?Hs, ?length_app; cbn; lia.
  - destruct (settle p r st) as [st2 |] eqn:Hs; [| discriminate Hstep].
    inversion Hstep; subst. apply settle_inv in Hs. destruct Hs as (ran & _ & ->).
    unfold in_flight; cbn. lia.
  - destruct (run_finally p st) as [st2 |] eqn:Hs; [| discriminate Hstep].
    inversion Hstep; subst.
    pose proof (finally_due_is_current p st st1 Hinv Hs) as Hcur.
    apply run_finally_inv in Hs. destruct Hs as (r & _ & ->).
    unfold in_flight; cbn. rewrite Hcur. lia.
Qed.

Lemma run_accounting w jobs :
  forall st st' rs,
    flight_inv st ->
    run w st jobs = Some (st', rs) ->
    (List.length (withCache_calls st') + in_flight st
     = List.length (withCache_calls st) + in_flight st' + count_finally jobs)%nat
    /\ (List.length (withCache_calls st')
        <= List.length (withCache_calls st) + count_calls jobs)%nat
    /\ List.length rs = count_calls jobs.
Proof.
  unfold count_finally, count_calls.
  induction jobs as [| j rest IH]; intros st st' rs Hinv; cbn.
  - intros E. inversion E; subst. cbn. lia.
  - destruct (step w st j) as [[st1 rs1] |] eqn:Hstep; [| discriminate].
    destruct (run w st1 rest) as [[st2 rs2] |] eqn:Hrun; [| discriminate].
    intros E. inversion E; subst.
    destruct (step_accounting w st j st1 rs1 Hinv Hstep) as (A1 & A2 & A3).
    destruct (IH st1 st' rs2 (flight_inv_step w st j st1 rs1 Hinv Hstep) Hrun)
      as (B1 & B2 & B3).
    rewrite length_app, A3, B3.
    destruct (is_finally j), (is_call j); cbn [List.length]; lia.
Qed.

(** X13: in any run of the module, the producers started
    ([cache.withCache] invocations) are as many as the [finally] callbacks
    that ran plus the promise still in the variable, if any; so there is
    never more than one producer that has not completed, never more
    producers than calls, and every call returns to its caller. *)
Theorem producers_accounting :
  forall (w : World) (jobs : list Job) (st : ModuleState) (rs : list Returned),
    run w initial_state jobs = Some (st, rs) ->
    List.length (withCache_calls st) = (count_finally jobs + in_flight st)%nat
    /\ (in_flight st <= 1)%nat
    /\ (List.length (withCache_calls st) <= count_calls jobs)%nat
    /\ List.length rs = count_calls jobs.
Proof.
  intros w jobs st rs Hrun.
  destruct (run_accounting w jobs initial_state st rs flight_inv_initial Hrun)
    as (A1 & A2 & A3).
  cbn in A1, A2. repeat split; try lia.
  unfold in_flight. destruct (fetchLicensePromise st); lia.
Qed.

Lemma producers_accounting_witness :
  exists st rs,
    run (answering_world 200 (Ok valid_body)) initial_state
        [CallFetchLicense; CallFetchLicense; Settle 0 (Err TypeError); RunFinally 0;
         CallFetchLicense]
    = Some (st, rs)
    /\ List.length (withCache_calls st) = 2%nat
    /\ rs = [SharedPromise 0; SharedPromise 0; SharedPromise 1].
Proof.
  eexists. eexists. split; [reflexivity |].
  destruct (producers_accounting (answering_world 200 (Ok valid_body))
              [CallFetchLicense; CallFetchLicense; Settle 0 (Err TypeError);
               RunFinally 0; CallFetchLicense] _ _ eq_refl) as (H & _).
  split; [exact H | reflexivity].
Defined.

(** *** Which cache entry is asked *)

Lemma run_without_license w jobs :
  key_configured w = false \/ is_build_phase (env w) = true ->
  forall st rs,
    run w initial_state jobs = Some (st, rs) ->
    st = initial_state /\ Forall (fun r => r = ResolvedNull) rs.
Proof.
  intros Hguard.
  induction jobs as [| j rest IH]; intros st rs; cbn.
  - intros E. inversion E; subst. auto.
  - destruct j as [| p r | p]; cbn.
    + destruct (fetch_short_circuits w 0 initial_state Hguard) as [_ ->].
      destruct (run w initial_state rest) as [[st2 rs2] |] eqn:Hrun;
        [| discriminate].
      intros E. inversion E; subst.
      destruct (IH st rs2 eq_refl) as [-> Hall]. auto.
    + destruct p; discriminate.
    + destruct p; discriminate.
Qed.

Lemma step_uses_fetch_key w st j st1 rs1 :
  Forall (fun c => c = (FETCH_LICENSE_CACHE_KEY (getCacheKeys w),
                        CONFIG.CACHE.FETCH_LICENSE_TTL_MS)) (withCache_calls st) ->
  step w st j = Some (st1, rs1) ->
  Forall (fun c => c = (FETCH_LICENSE_CACHE_KEY (getCacheKeys w),
                        CONFIG.CACHE.FETCH_LICENSE_TTL_MS)) (withCache_calls st1).
Proof.
  intros Hall Hstep. destruct j as [| p r | p]; cbn in Hstep.
  - destruct (fetchLicense_cases w st) as [H | [[p [Hs H]] | [Hs H]]];
      rewrite H in Hstep; inversion Hstep; subst; cbn; auto.
    apply Forall_app. split; [exact Hall |]. constructor; [reflexivity | constructor].
  - destruct (settle p r st) as [st2 |] eqn:Hs; [| discriminate Hstep].
    inversion Hstep; subst. apply settle_inv in Hs. destruct Hs as (ran & _ & ->).
    exact Hall.
  - destruct (run_finally p st) as [st2 |] eqn:Hs; [| discriminate Hstep].
    inversion Hstep; subst. apply run_finally_inv in Hs. destruct Hs as (r & _ & ->).
    exact Hall.
Qed.

Lemma run_uses_fetch_key w jobs :
  forall st st' rs,
    Forall (fun c => c = (FETCH_LICENSE_CACHE_KEY (getCacheKeys w),
                          CONFIG.CACHE.FETCH_LICENSE_TTL_MS)) (withCache_calls st) ->
    run w st jobs = Some (st', rs) ->
    Forall (fun c => c = (FETCH_LICENSE_CACHE_KEY (getCacheKeys w),
                          CONFIG.CACHE.FETCH_LICENSE_TTL_MS)) (withCache_calls st').
Proof.
  induction jobs as [| j rest IH]; intros st st' rs Hall; cbn.
  - intros E. inversion E; subst. exact Hall.
  - destruct (step w st j) as [[st1 rs1] |] eqn:Hstep; [| discriminate].
    destruct (run w st1 rest) as [[st2 rs2] |] eqn:Hrun; [| discriminate].
    intros E. inversion E; subst.
    exact (IH st1 st' rs2 (step_uses_fetch_key w st j st1 rs1 Hall Hstep) Hrun).
Qed.

(** X14: every producer [fetchLicense] starts asks the cache for the same
    entry, the fetch key of [getCacheKeys], with the 24 hour TTL. Without a
    key, or in the build phase, no run of the module ever starts one: the
    module stays in its initial state. On the server a producer's key is
    built from the hash of the configured, non-empty license key, never
    from the key itself or from the no-license identifier. *)
Theorem cache_entry_asked :
  forall (w : World) (st : ModuleState),
    reachable w st ->
    Forall (fun c => c = (FETCH_LICENSE_CACHE_KEY (getCacheKeys w), 24 * 60 * 60 * 1000))
           (withCache_calls st)
    /\ (key_configured w = false \/ is_build_phase (env w) = true ->
        st = initial_state)
    /\ (withCache_calls st <> [] ->
        window_defined (env w) = false ->
        exists k,
          ENTERPRISE_LICENSE_KEY (env w) = Some k
          /\ k <> ""
          /\ getCacheKeys w
             = mkCacheKeys (createCacheKey_license_status w (hashString w k))
                           (createCacheKey_license_previous_result w (hashString w k))).
Proof.
  intros w st (jobs & rs & Hrun). split; [| split].
  - apply (run_uses_fetch_key w jobs initial_state st rs); [constructor | exact Hrun].
  - intros Hguard. exact (proj1 (run_without_license w jobs Hguard st rs Hrun)).
  - intros Hne Hwin.
    destruct (key_configured w) eqn:Hkey.
    + unfold key_configured, truthy in Hkey.
      unfold getCacheKeys, getCacheIdentifier. rewrite Hwin.
      destruct (ENTERPRISE_LICENSE_KEY (env w)) as [k |] eqn:Hk; [| discriminate Hkey].
      exists k. cbn. rewrite Hkey. cbn. repeat split.
      intros ->. discriminate Hkey.
    + exfalso. apply Hne.
      rewrite (proj1 (run_without_license w jobs (or_introl Hkey) st rs Hrun)).
      reflexivity.
Qed.

Lemma cache_entry_asked_witness :
  Forall (fun c => c = (FETCH_LICENSE_CACHE_KEY
                          (getCacheKeys (answering_world 200 (Ok valid_body))),
                        24 * 60 * 60 * 1000))
         (withCache_calls (fst (fetchLicense (answering_world 200 (Ok valid_body))
                                             initial_state))).
Proof.
  apply (proj1 (cache_entry_asked
                  (answering_world 200 (Ok valid_body))
                  (fst (fetchLicense (answering_world 200 (Ok valid_body)) initial_state))
                  (ex_intro _ [CallFetchLicense] (ex_intro _ _ eq_refl)))).
Defined.

(** *** What callers read *)

Lemma step_settlement_source w st j st1 rs1 p s :
  step w st j = Some (st1, rs1) ->
  eventual_result st1 (SharedPromise p) = Some s ->
  eventual_result st (SharedPromise p) = Some s \/ j = Settle p s.
Proof.
  intros Hstep. cbn. destruct j as [| q r | q]; cbn in Hstep.
  - destruct (fetchLicense_cases w st) as [H | [[p' [_ H]] | [_ H]]];
      rewrite H in Hstep; inversion Hstep; subst; cbn; auto.
    destruct (Nat.lt_ge_cases p (List.length (promise_table st))) as [Hlt | Hge].
    + rewrite nth_error_app1 by exact Hlt. auto.
    + rewrite nth_error_app2 by exact Hge.
      destruct (p - List.length (promise_table st))%nat as [| [| k]]; cbn;
        discriminate.
  - destruct (settle q r st) as [st2 |] eqn:Hq; [| discriminate Hstep].
    inversion Hstep; subst. apply settle_inv in Hq.
    destruct Hq as (ran & Hq & ->). cbn.
    destruct (Nat.eq_dec q p) as [-> | Hne].
    + rewrite (nth_error_set_cell_eq _ _ _ _ Hq). cbn. intros E.
      inversion E; subst. auto.
    + rewrite nth_error_set_cell_ne by exact Hne. auto.
  - destruct (run_finally q st) as [st2 |] eqn:Hq; [| discriminate Hstep].
    inversion Hstep; subst. apply run_finally_inv in Hq.
    destruct Hq as (r & Hq & ->). cbn.
    destruct (Nat.eq_dec q p) as [-> | Hne].
    + rewrite (nth_error_set_cell_eq _ _ _ _ Hq), Hq. cbn. auto.
    + rewrite nth_error_set_cell_ne by exact Hne. auto.
Qed.

Lemma run_settlement_stable w jobs :
  forall st st' rs p s,
    run w st jobs = Some (st', rs) ->
    eventual_result st (SharedPromise p) = Some s ->
    eventual_result st' (SharedPromise p) = Some s.
Proof.
  induction jobs as [| j rest IH]; intros st st' rs p s; cbn [run].
  - intros E. inversion E; subst. auto.
  - destruct (step w st j) as [[st1 rs1] |] eqn:Hstep; [| discriminate].
    destruct (run w st1 rest) as [[st2 rs2] |] eqn:Hrun; [| discriminate].
    intros E Hs. inversion E; subst.
    apply (IH st1 st' rs2 p s Hrun).
    exact (settled_is_stable w st j st1 rs1 p s Hstep Hs).
Qed.

Lemma run_settlement_source w jobs :
  forall st st' rs p s,
    run w st jobs = Some (st', rs) ->
    eventual_result st' (SharedPromise p) = Some s ->
    eventual_result st (SharedPromise p) = Some s \/ In (Settle p s) jobs.
Proof.
  induction jobs as [| j rest IH]; intros st st' rs p s; cbn [run].
  - intros E. inversion E; subst. auto.
  - destruct (step w st j) as [[st1 rs1] |] eqn:Hstep; [| discriminate].
    destruct (run w st1 rest) as [[st2 rs2] |] eqn:Hrun; [| discriminate].
    intros E Hs. inversion E; subst.
    destruct (IH st1 st' rs2 p s Hrun Hs) as [H | H].
    + destruct (step_settlement_source w st j st1 rs1 p s Hstep H) as [H' | ->].
      * left. exact H'.
      * right. left. reflexivity.
    + right. right. exact H.
Qed.

Lemma run_settle_delivered w jobs :
  forall st st' rs p s,
    run w st jobs = Some (st', rs) ->
    In (Settle p s) jobs ->
    eventual_result st' (SharedPromise p) = Some s.
Proof.
  induction jobs as [| j rest IH]; intros st st' rs p s; cbn [run].
  - intros _ [].
  - destruct (step w st j) as [[st1 rs1] |] eqn:Hstep; [| discriminate].
    destruct (run w st1 rest) as [[st2 rs2] |] eqn:Hrun; [| discriminate].
    intros E [-> | Hin]; inversion E; subst.
    + apply (run_settlement_stable w rest st1 st' rs2 p s Hrun).
      cbn in Hstep. destruct (settle p s st) as [st3 |] eqn:Hs; [| discriminate Hstep].
      inversion Hstep; subst. apply settle_inv in Hs.
      destruct Hs as (ran & Hq & ->). cbn.
      rewrite (nth_error_set_cell_eq _ _ _ _ Hq). reflexivity.
    + exact (IH st1 st' rs2 p s Hrun Hin).
Qed.

(** X15: what the callers that share a promise read is exactly what its
    producer delivered: in any run, promise [p] shows result [s] if and only
    if the run contains the settlement of [p] with [s]; a value or an error
    is passed on unchanged, and nothing is read before the producer
    finished. *)
Theorem shared_result_is_delivered :
  forall (w : World) (jobs : list Job) (st : ModuleState) (rs : list Returned)
         (p : nat) (s : Settlement),
    run w initial_state jobs = Some (st, rs) ->
    (eventual_result st (SharedPromise p) = Some s <-> In (Settle p s) jobs).
Proof.
  intros w jobs st rs p s Hrun. split.
  - intros Hs.
    destruct (run_settlement_source w jobs initial_state st rs p s Hrun Hs)
      as [H | H]; [| exact H].
    cbn in H. destruct p; discriminate H.
  - intros Hin. exact (run_settle_delivered w jobs initial_state st rs p s Hrun Hin).
Qed.

Lemma shared_result_is_delivered_witness :
  exists st rs,
    run (answering_world 200 (Ok valid_body)) initial_state
        [CallFetchLicense; Settle 0 (Err (ExternalError "redis down")); CallFetchLicense]
    = Some (st, rs)
    /\ eventual_result st (SharedPromise 0) = Some (Err (ExternalError "redis down")).
Proof.
  eexists. eexists. split; [reflexivity |].
  apply (shared_result_is_delivered (answering_world 200 (Ok valid_body))
           [CallFetchLicense; Settle 0 (Err (ExternalError "redis down"));
            CallFetchLicense] _ _ 0%nat (Err (ExternalError "redis down")) eq_refl).
  right. left. reflexivity.
Defined.

(** ** Every 2xx response *)

Lemma handle_response_ok w retryCount res :
  res_ok res = true ->
  match body_details w res with
  | Some d => outcome (handle_response w retryCount res) = Ok (Return (Some d))
  | None => exists e, outcome (handle_response w retryCount res) = Err e
  end.
Proof.
  intros Hok. unfold handle_response, body_details. rewrite Hok.
  destruct (res_json res) as [json | name]; [| eexists; reflexivity].
  cbn. destruct json; cbn; try (eexists; reflexivity).
  destruct (validateLicenseDetails (zod_number_ok w) (get_prop props "data"));
    cbn; [reflexivity | eexists; reflexivity].
Qed.

(** X4: a 2xx response is handled in one request with no retry: the call
    returns the validated details when the body parses to an object whose
    [data] property the validator accepts, and in every other case (body
    that does not parse, [null], not an object, no [data], invalid [data])
    it logs one error and returns [null]. *)
Theorem fetch_on_2xx :
  forall (w : World) (retryCount : nat) (res : Response),
    key_configured w = true ->
    is_build_phase (env w) = false ->
    request_sent w retryCount = true ->
    http (attempts w retryCount) = Ok res ->
    res_ok res = true ->
    outcome (fetchLicenseFromServerInternal w retryCount) = Ok (body_details w res)
    /\ network_calls (trace (fetchLicenseFromServerInternal w retryCount)) = 1%nat
    /\ sleeps (trace (fetchLicenseFromServerInternal w retryCount)) = []
    /\ errors_logged (trace (fetchLicenseFromServerInternal w retryCount))
       = match body_details w res with
         | Some _ => 0%nat
         | None => 1%nat
         end.
Proof.
  intros w retryCount res Hkey Hbuild Hsent Hhttp Hok.
  pose proof (guarded_block_sent_outcome w retryCount Hsent) as Hout.
  rewrite Hhttp in Hout.
  pose proof (handle_response_ok w retryCount res Hok) as Hbody.
  pose proof (outcome_try_block w retryCount) as Hto.
  destruct (attempt_timers w retryCount) as (_ & _ & T3).
  pose proof (sleeps_attempt w retryCount) as Hs.
  pose proof (network_calls_attempt w retryCount) as Hn. rewrite Hsent in Hn.
  rewrite (fetchLicenseFromServerInternal_next w retryCount Hkey Hbuild).
  destruct (body_details w res) as [d |].
  - rewrite Hbody in Hout. rewrite Hout in Hto, T3. rewrite Hto in Hs |- *.
    cbn [trace outcome fst snd]. auto.
  - destruct Hbody as [e He]. rewrite He in Hout.
    rewrite Hout in Hto, T3. rewrite Hto in Hs |- *.
    cbn [trace outcome fst snd]. auto.
Qed.

Lemma fetch_on_2xx_witness :
  outcome (fetchLicenseFromServerInternal (answering_world 204 (Err "Unexpected end of JSON input")) 0)
  = Ok (body_details (answering_world 204 (Err "Unexpected end of JSON input"))
                     (mkResponse 204 (Err "Unexpected end of JSON input")))
  /\ network_calls (trace (fetchLicenseFromServerInternal
                             (answering_world 204 (Err "Unexpected end of JSON input")) 0))
     = 1%nat
  /\ sleeps (trace (fetchLicenseFromServerInternal
                      (answering_world 204 (Err "Unexpected end of JSON input")) 0)) = []
  /\ errors_logged (trace (fetchLicenseFromServerInternal
                             (answering_world 204 (Err "Unexpected end of JSON input")) 0))
     = match body_details (answering_world 204 (Err "Unexpected end of JSON input"))
                          (mkResponse 204 (Err "Unexpected end of JSON input")) with
       | Some _ => 0%nat
       | None => 1%nat
       end.
Proof.
  apply (fetch_on_2xx (answering_world 204 (Err "Unexpected end of JSON input")) 0
           (mkResponse 204 (Err "Unexpected end of JSON input"))); reflexivity.
Defined.

Example body_without_data :
  body_details (answering_world 200 (Ok (JObject [("status", JString "active")])))
               (mkResponse 200 (Ok (JObject [("status", JString "active")]))) = None
  /\ body_details (answering_world 200 (Ok JNull)) (mkResponse 200 (Ok JNull)) = None
  /\ body_details (answering_world 200 (Ok valid_body)) (mkResponse 200 (Ok valid_body))
     = Some (mkDetails active_ all_enabled).
Proof. vm_compute. auto. Qed.

(** ** What is reported *)

Lemma handle_response_tracked w retryCount res s :
  In (EvTrackApiError s) (trace (handle_response w retryCount res)) ->
  s = res_status res /\ res_ok res = false.
Proof.
  destruct (res_ok res) eqn:Hok.
  - unfold handle_response. rewrite Hok.
    destruct (res_json res) as [json | name]; [| intros []].
    cbn. destruct json; cbn; try (intros []);
      destruct (validateLicenseDetails _ _); cbn; intros H;
      repeat (destruct H as [H | H]; [discriminate H |]); contradiction.
  - rewrite (handle_response_failure w retryCount res Hok).
    destruct (_ && _); cbn; intros H;
      repeat (destruct H as [H | H]; [inversion H; auto |]); contradiction.
Qed.

(** X17: an API error is reported (status logged at error level by
    [trackApiError]) only for a response that some attempt really received
    with that status, and only when the status is outside 2xx. *)
Theorem tracked_errors_are_real :
  forall (w : World) (retryCount : nat) (s : Z),
    In (EvTrackApiError s) (trace (fetchLicenseFromServerInternal w retryCount)) ->
    exists n res,
      (retryCount <= n)%nat
      /\ http (attempts w n) = Ok res
      /\ res_status res = s
      /\ res_ok res = false.
Proof.
  intros w retryCount s Hin.
  destruct (fetch_events w retryCount _ Hin) as (_ & _ & [H | (n & Hle & H)]);
    [discriminate H |].
  apply guarded_block_events in H.
  destruct H as [[H _] | [H | [H | [H | [(p' & a' & H & _) | [H | (res & Hhttp & H)]]]]]];
    try discriminate H.
  apply handle_response_tracked in H. destruct H as [-> Hok].
  exists n, res. auto.
Qed.

Lemma tracked_errors_are_real_witness :
  exists n res,
    (0 <= n)%nat
    /\ http (attempts (answering_world 404 (Err "unread")) n) = Ok res
    /\ res_status res = 404
    /\ res_ok res = false.
Proof.
  apply (tracked_errors_are_real (answering_world 404 (Err "unread")) 0 404).
  vm_compute. auto 10.
Defined.
